(** * IW44 FFI bridges of DJVU-Encoder-Rust: a shallow embedding

    Two C++ translation units are embedded here:

    - [src/ffi/simple_iw44_bridge.cpp]: the low-level slice primitive
      [iw44_encode_slice_simple] (module [Slice]);
    - [src/ffi/iw44_bridge.cpp]: the session bridge around the DjVuLibre
      class [IW44Image] (module [Bridge]).  That class is not part of
      the two files; module [Session] models it from the specification.

    C [int]s are integers of [Z] together with the range check that C++
    leaves to the programmer: signed overflow, a store outside an array
    and a read through a null pointer are undefined behaviour, which the
    embedding keeps as the explicit outcome [Undefined].  A pointer
    argument is an [option]: [None] is the null pointer and [Some v] a
    valid pointer whose pointee currently holds [v]; distinct pointer
    arguments are taken to point to distinct objects. *)

From Stdlib Require Import Floats.
From stdpp Require Import base numbers option list.

Local Open Scope Z_scope.

(** ** Outcomes of a C++ call *)

Inductive outcome (A : Type) : Type :=
  | Returns (a : A)     (* normal completion *)
  | Throws              (* a C++ exception leaves the expression *)
  | Undefined.          (* undefined behaviour *)
Arguments Returns {A} a.
Arguments Throws {A}.
Arguments Undefined {A}.

Definition obind {A B : Type} (o : outcome A) (k : A -> outcome B) : outcome B :=
  match o with
  | Returns a => k a
  | Throws => Throws
  | Undefined => Undefined
  end.

(** [try { body } catch (...) { return handler; }] *)
Definition try_catch {A : Type} (body : outcome A) (handler : A) : outcome A :=
  match body with
  | Throws => Returns handler
  | other => other
  end.

Notation "'run' x '<~' e 'in' k" := (obind e (fun x => k))
  (at level 10, x pattern, e at level 100, k at level 200,
   format "'[v' 'run'  x  '<~'  e  'in' '/' k ']'").

(** A pointer: [None] is null, [Some v] points to an object holding [v]. *)
Abbreviation ptr A := (option A) (only parsing).

Definition is_null {A : Type} (p : ptr A) : bool :=
  match p with None => true | Some _ => false end.

(** ** C integers *)

Module CInt.

Definition INT_MIN : Z := - 2 ^ 31.
Definition INT_MAX : Z := 2 ^ 31 - 1.

Definition is_int (z : Z) : bool := (INT_MIN <=? z) && (z <=? INT_MAX).

(** The value of an [int] expression, when it is representable. *)
Definition checked (z : Z) : outcome Z :=
  if is_int z then Returns z else Undefined.

Definition int_add (a b : Z) : outcome Z := checked (a + b).
Definition int_sub (a b : Z) : outcome Z := checked (a - b).
Definition int_mul (a b : Z) : outcome Z := checked (a * b).

(** [(uint8_t) z]: conversion to an unsigned type is modular. *)
Definition to_uint8 (z : Z) : Z := z mod 256.

End CInt.

(** ** Byte arrays *)

(** [buf[i] = v] on an array of [length buf] bytes. *)
Definition store (buf : list Z) (i : nat) (v : Z) : outcome (list Z) :=
  if decide (i < length buf)%nat then Returns (<[i:=v]> buf) else Undefined.

(** ** The low-level slice primitive (simple_iw44_bridge.cpp) *)

Module Slice.
Import CInt.

(** Return values of [iw44_encode_slice_simple]. *)
Definition MORE : Z := 1.
Definition DONE : Z := 0.
Definition ERROR : Z := -1.

(** The number of bands per bit plane, the literal [10] of the source. *)
Definition BANDS_PER_PLANE : Z := 10.

(** One call: the twelve arguments, pointers with their pointees. *)
Record slice_call : Type := {
  coeffs : ptr (list Z);          (* const int16_t*  *)
  num_coeffs : Z;
  width : Z;
  height : Z;
  cur_bit : Z;
  cur_band : Z;
  quant_lo : ptr (list Z);        (* const int32_t*  *)
  quant_hi : ptr (list Z);        (* const int32_t*  *)
  output_buffer : ptr (list Z);   (* uint8_t*, the caller's array *)
  output_size : ptr Z;            (* int*: in, capacity; out, size *)
  next_bit : ptr Z;               (* int*  *)
  next_band : ptr Z               (* int*  *)
}.

(** What the caller sees afterwards: the return value and the objects
    behind the four writable pointers. *)
Record slice_post : Type := {
  status : Z;
  buffer_out : ptr (list Z);
  size_out : ptr Z;
  bit_out : ptr Z;
  band_out : ptr Z
}.

(** The guard of line 26 and the body of lines 31-54. *)
Definition iw44_encode_slice_simple (c : slice_call) : outcome slice_post :=
  match coeffs c, output_buffer c, output_size c, next_bit c, next_band c with
  | Some _, Some buf, Some cap, Some _, Some _ =>
      run band1 <~ int_add (cur_band c) 1 in
      run (new_band, new_bit) <~
        (if 10 <=? band1
         then run bit1 <~ int_sub (cur_bit c) 1 in Returns (0, bit1)
         else Returns (band1, cur_bit c)) in
      run (buf', size') <~
        (if 4 <=? cap
         then
           run b0 <~ store buf 0 (to_uint8 (Z.land (cur_bit c) 255)) in
           run b1 <~ store b0 1 (to_uint8 (Z.land (cur_band c) 255)) in
           run b2 <~ store b1 2 170 in
           run b3 <~ store b2 3 187 in
           Returns (b3, 4)
         else Returns (buf, 0)) in
      Returns {| status := if 0 <=? new_bit then 1 else 0;
                 buffer_out := Some buf';
                 size_out := Some size';
                 bit_out := Some new_bit;
                 band_out := Some new_band |}
  | _, _, _, _, _ =>
      Returns {| status := -1;
                 buffer_out := output_buffer c;
                 size_out := output_size c;
                 bit_out := next_bit c;
                 band_out := next_band c |}
  end.

(** The five pointers the guard tests. *)
Definition guarded_nonnull (c : slice_call) : bool :=
  negb (is_null (coeffs c)) && negb (is_null (output_buffer c))
  && negb (is_null (output_size c)) && negb (is_null (next_bit c))
  && negb (is_null (next_band c)).

(** All seven pointer arguments. *)
Definition all_nonnull (c : slice_call) : bool :=
  guarded_nonnull c && negb (is_null (quant_lo c)) && negb (is_null (quant_hi c)).

(** The stated capacity is honest: the caller's array has at least
    [*output_size] bytes. *)
Definition buffer_fits (c : slice_call) : bool :=
  match output_buffer c, output_size c with
  | Some buf, Some cap => cap <=? Z.of_nat (length buf)
  | _, _ => true
  end.

(** Valid pointer arguments: the five guarded pointers are not null and
    [output_buffer] points to at least [*output_size] bytes. *)
Definition valid_pointers (c : slice_call) : bool :=
  guarded_nonnull c && buffer_fits c.

(** The cursor arguments are [int]s. *)
Definition cursor_is_int (c : slice_call) : bool :=
  is_int (cur_bit c) && is_int (cur_band c).

(** The bytes the call produced: the first [*output_size] bytes of the
    caller's array after the call. *)
Definition bytes_written (r : slice_post) : list Z :=
  match buffer_out r, size_out r with
  | Some buf, Some n => take (Z.to_nat n) buf
  | _, _ => []
  end.

(** Lines 31-37 in unbounded integers: the cursor after the slice at
    [(bit, band)]. *)
Definition advance (bit band : Z) : Z * Z :=
  if 10 <=? band + 1 then (bit - 1, 0) else (bit, band + 1).

(** Lines 31 and 36 stay within [int]. *)
Definition cursor_in_range (c : slice_call) : bool :=
  is_int (cur_band c + 1)
  && (if 10 <=? cur_band c + 1 then is_int (cur_bit c - 1) else true).

(** The four bytes of lines 44-47. *)
Definition slice_bytes (c : slice_call) : list Z :=
  [to_uint8 (Z.land (cur_bit c) 255); to_uint8 (Z.land (cur_band c) 255); 170; 187].


(** The cursor rule of the specification for one call: the call returns,
    [band' = (band + 1) mod BANDS_PER_PLANE], and the bit plane drops by
    one exactly when the band wraps to 0. *)
Definition advances_by_rule (c : slice_call) : Prop :=
  exists r,
    iw44_encode_slice_simple c = Returns r
    /\ band_out r = Some ((cur_band c + 1) mod BANDS_PER_PLANE)
    /\ bit_out r =
         Some (if (cur_band c + 1) mod BANDS_PER_PLANE =? 0
               then cur_bit c - 1 else cur_bit c).

(** The concrete scenario of the specification: a 4x4 plane of zeros
    and all-ones quantization tables, with the caller's output array. *)
Definition scenario (buf : list Z) (cap : Z) : slice_call :=
  {| coeffs := Some (replicate 16 0); num_coeffs := 16;
     width := 4; height := 4;
     cur_bit := 0; cur_band := 0;
     quant_lo := Some (replicate 16 1); quant_hi := Some (replicate 10 1);
     output_buffer := Some buf; output_size := Some cap;
     next_bit := Some 0; next_band := Some 0 |}.

(** The same call at another cursor. *)
Definition at_cursor (c : slice_call) (bit band : Z) : slice_call :=
  {| coeffs := coeffs c; num_coeffs := num_coeffs c;
     width := width c; height := height c;
     cur_bit := bit; cur_band := band;
     quant_lo := quant_lo c; quant_hi := quant_hi c;
     output_buffer := output_buffer c; output_size := output_size c;
     next_bit := next_bit c; next_band := next_band c |}.

(** The same call with other quantization-table pointers. *)
Definition with_tables (c : slice_call) (lo hi : ptr (list Z)) : slice_call :=
  {| coeffs := coeffs c; num_coeffs := num_coeffs c;
     width := width c; height := height c;
     cur_bit := cur_bit c; cur_band := cur_band c;
     quant_lo := lo; quant_hi := hi;
     output_buffer := output_buffer c; output_size := output_size c;
     next_bit := next_bit c; next_band := next_band c |}.

(** A caller's loop: one call per element of [calls], each at the
    cursor the previous call stored through [next_bit] and [next_band].
    The result is the list of return values and the last cursor. *)
Fixpoint drive (calls : list slice_call) (bit band : Z)
  : outcome (list Z * (Z * Z)) :=
  match calls with
  | [] => Returns ([], (bit, band))
  | c :: rest =>
      run r <~ iw44_encode_slice_simple (at_cursor c bit band) in
      match bit_out r, band_out r with
      | Some bit', Some band' =>
          run (statuses, last) <~ drive rest bit' band' in
          Returns (status r :: statuses, last)
      | _, _ => Undefined
      end
  end.

End Slice.

(** ** The session bridge (iw44_bridge.cpp) *)

Module Bridge.
Import CInt.

(** [IW44EncodeParms], the struct of lines 17-21. *)
Record IW44EncodeParms : Type := {
  slices : Z;
  bytes : Z;
  decibels : float
}.

(** [IWEncoderParms] of IW44Image.h, as lines 116-119 fill it. *)
Record IWEncoderParms : Type := {
  cpp_slices : Z;
  cpp_bytes : Z;
  cpp_decibels : float
}.

Definition gray_rows : Type := list (list Z).
Definition rgb_rows : Type := list (list (Z * Z * Z)).

(** The DjVuLibre classes the bridge calls are not under src/: they are
    the operations of this interface, over the state [Img] of an
    [IW44Image] object.  [encode_chunk] gives back the object as the
    call leaves it, together with the returned flag and the bytes
    written to the stream. *)
Class DjVuLibre (Img : Type) : Type := {
  GBitmap_create : Z -> Z -> outcome unit;
  GPixmap_create : Z -> Z -> outcome unit;
  create_encode_bitmap : gray_rows -> ptr gray_rows -> outcome Img;
  create_encode_pixmap : rgb_rows -> ptr gray_rows -> outcome Img;
  encode_chunk : Img -> IWEncoderParms -> outcome (Z * list Z) * Img;
  get_slices : Img -> outcome Z;
  get_bytes : Img -> outcome Z;
  (* what is left of the object once the temporary GP<IW44Image> of
     [iw44_encoder_free] has gone out of scope *)
  GP_release : Img -> ptr Img
}.

(** [data[idx]] for a caller's array. *)
Definition read (data : ptr (list Z)) (idx : Z) : outcome Z :=
  match data with
  | None => Undefined
  | Some l =>
      if idx <? 0 then Undefined
      else match l !! Z.to_nat idx with
           | Some v => Returns v
           | None => Undefined
           end
  end.

(** [for (int i = 0; i < n; i++) body(i)], collecting what the body
    stores. *)
Fixpoint for_each {A : Type} (body : Z -> outcome A) (idxs : list Z)
  : outcome (list A) :=
  match idxs with
  | [] => Returns []
  | i :: rest =>
      run a <~ body i in
      run l <~ for_each body rest in
      Returns (a :: l)
  end.

Definition for_upto {A : Type} (n : Z) (body : Z -> outcome A) : outcome (list A) :=
  for_each body (seqZ 0 n).

(** Lines 33-38 (and 44-49): [row[x] = data[y * width + x]]. *)
Definition copy_gray (data : ptr (list Z)) (width height : Z) : outcome gray_rows :=
  for_upto height (fun y =>
    for_upto width (fun x =>
      run yw <~ int_mul y width in
      run idx <~ int_add yw x in
      read data idx)).

(** Lines 72-80: three channels from [idx = (y * width + x) * 3]. *)
Definition copy_rgb (data : ptr (list Z)) (width height : Z) : outcome rgb_rows :=
  for_upto height (fun y =>
    for_upto width (fun x =>
      run yw <~ int_mul y width in
      run ywx <~ int_add yw x in
      run idx <~ int_mul ywx 3 in
      run r <~ read data idx in
      run idx1 <~ int_add idx 1 in
      run g <~ read data idx1 in
      run idx2 <~ int_add idx 2 in
      run b <~ read data idx2 in
      Returns (r, g, b))).

(** Lines 41-50 (and 83-92): the optional mask. *)
Definition copy_mask `{DjVuLibre Img} (mask_data : ptr (list Z)) (width height : Z)
  : outcome (ptr gray_rows) :=
  match mask_data with
  | None => Returns None
  | Some _ =>
      run _ <~ GBitmap_create height width in
      run m <~ copy_gray mask_data width height in
      Returns (Some m)
  end.

(** [iw44_encoder_new_grayscale]: the handle, null after a caught
    exception. *)
Definition iw44_encoder_new_grayscale `{DjVuLibre Img}
    (image_data : ptr (list Z)) (width height : Z) (mask_data : ptr (list Z))
  : outcome (ptr Img) :=
  try_catch
    (run _ <~ GBitmap_create height width in
     run bitmap <~ copy_gray image_data width height in
     run mask <~ copy_mask mask_data width height in
     run encoder <~ create_encode_bitmap bitmap mask in
     Returns (Some encoder))
    None.

(** [iw44_encoder_new_color]. *)
Definition iw44_encoder_new_color `{DjVuLibre Img}
    (image_data : ptr (list Z)) (width height : Z) (mask_data : ptr (list Z))
  : outcome (ptr Img) :=
  try_catch
    (run _ <~ GPixmap_create height width in
     run pixmap <~ copy_rgb image_data width height in
     run mask <~ copy_mask mask_data width height in
     run encoder <~ create_encode_pixmap pixmap mask in
     Returns (Some encoder))
    None.

(** One call of [iw44_encode_chunk]: the four pointer arguments. *)
Record chunk_call (Img : Type) : Type := {
  encoder : ptr Img;                    (* IW44Encoder*            *)
  parms : ptr IW44EncodeParms;        (* const IW44EncodeParms*  *)
  output_data : ptr (ptr (list Z));   (* uint8_t**               *)
  output_size : ptr Z                 (* size_t*                 *)
}.
Arguments encoder {Img} _.
Arguments parms {Img} _.
Arguments output_data {Img} _.
Arguments output_size {Img} _.

(** The return value, the session object and the two out-parameters
    after the call. *)
Record chunk_post (Img : Type) : Type := {
  chunk_status : Z;
  encoder_out : ptr Img;
  data_out : ptr (ptr (list Z));
  size_out : ptr Z
}.
Arguments chunk_status {Img} _.
Arguments encoder_out {Img} _.
Arguments data_out {Img} _.
Arguments size_out {Img} _.

(** A return that stores nothing through the out-parameters. *)
Definition leave {Img : Type} (c : chunk_call Img) (ret : Z) (obj : ptr Img) : chunk_post Img :=
  {| chunk_status := ret; encoder_out := obj;
     data_out := output_data c; size_out := output_size c |}.

(** [iw44_encode_chunk], lines 104-148.  [malloc n] tells whether the
    allocation of [n] bytes on line 134 gives a non-null pointer. *)
Definition iw44_encode_chunk `{DjVuLibre Img} (malloc : Z -> bool) (c : chunk_call Img)
  : outcome (chunk_post Img) :=
  match encoder c, parms c, output_data c, output_size c with
  | Some iw44, Some p, Some _, Some _ =>
      let cpp_parms := {| cpp_slices := slices p;
                          cpp_bytes := bytes p;
                          cpp_decibels := decibels p |} in
      let '(flag, iw44') := encode_chunk iw44 cpp_parms in
      match flag with
      | Returns (result, stream) =>
          if result <=? 0 then Returns (leave c result (Some iw44'))
          else
            let data_size := Z.of_nat (length stream) in
            if malloc data_size
            then Returns {| chunk_status := result;
                            encoder_out := Some iw44';
                            data_out := Some (Some stream);
                            size_out := Some data_size |}
            else Returns (leave c (-1) (Some iw44'))
      | Throws => Returns (leave c (-1) (Some iw44'))
      | Undefined => Undefined
      end
  | _, _, _, _ => Returns (leave c (-1) (encoder c))
  end.

(** [iw44_get_slices] and [iw44_get_bytes], lines 151-172. *)
Definition iw44_get_slices `{DjVuLibre Img} (encoder : ptr Img) : outcome Z :=
  match encoder with
  | None => Returns (-1)
  | Some iw44 => try_catch (get_slices iw44) (-1)
  end.

Definition iw44_get_bytes `{DjVuLibre Img} (encoder : ptr Img) : outcome Z :=
  match encoder with
  | None => Returns (-1)
  | Some iw44 => try_catch (get_bytes iw44) (-1)
  end.

(** [iw44_encoder_free], lines 175-180: the object behind the handle
    after the call. *)
Definition iw44_encoder_free `{DjVuLibre Img} (encoder : ptr Img) : ptr Img :=
  match encoder with
  | None => None
  | Some iw44 => GP_release iw44
  end.

(** A caller's sequence of calls on one session: each step brings the
    answers of the allocator and the target of that call; the handle
    and the out-parameters are passed on as the previous call left
    them. *)
Fixpoint chunk_sequence `{DjVuLibre Img}
    (steps : list ((Z -> bool) * ptr IW44EncodeParms)) (c : chunk_call Img)
  : outcome (list Z * chunk_call Img) :=
  match steps with
  | [] => Returns ([], c)
  | (malloc, target) :: rest =>
      run r <~ iw44_encode_chunk malloc
                 {| encoder := encoder c; parms := target;
                    output_data := output_data c;
                    output_size := output_size c |} in
      run (statuses, last) <~
        chunk_sequence rest
          {| encoder := encoder_out r; parms := target;
             output_data := data_out r; output_size := size_out r |} in
      Returns (chunk_status r :: statuses, last)
  end.

End Bridge.

(** ** The encoder session behind the handle *)

Module Session.
Import Bridge.

(** Modelled from the spec: the Encoder Session State of section 3 (the
    class [IW44Image] of Image/IW44Image.h is not under src/): the
    coefficient plane with its dimensions, the two quantization
    sub-tables, the progress cursor, the cumulative counters and the
    terminal DONE state. *)
Record session : Type := {
  coefficients : list Z;
  plane_width : Z;
  plane_height : Z;
  quant_lo : list Z;
  quant_hi : list Z;
  bit_plane : Z;
  band : Z;
  slices_so_far : Z;
  bytes_so_far : Z;
  done : bool
}.

(** Modelled from the spec: what section 2 treats as external
    collaborators of the session (none of them is under src/): the Slice
    Codec with the contract of section 4.1,
    [encode_slice(coefficients, dims, cursor, quant_table)
     -> (encoded_bytes, next_cursor, status)],
    the decibel stopping predicate evaluated after each slice, and the
    ingestion that turns pixels and an optional mask into a
    coefficient plane, its quantization tables and its initial bit
    plane. *)
Record externals : Type := {
  encode_slice :
    list Z -> Z * Z -> Z * Z -> list Z * list Z -> list Z * (Z * Z) * Z;
  quality_reached : Z * Z -> float -> bool;
  ingest_gray : gray_rows -> ptr gray_rows -> list Z;
  ingest_rgb : rgb_rows -> ptr gray_rows -> list Z;
  tables : list Z * list Z;
  initial_bit_plane : Z
}.

Section Model.
Variable ext : externals.

(** Modelled from the spec: a malformed target has all budgets zero
    or negative (section 4.2, Failure). *)
Definition malformed (t : IWEncoderParms) : bool :=
  (cpp_slices t <=? 0) && (cpp_bytes t <=? 0)
  && negb (PrimFloat.ltb 0%float (cpp_decibels t)).

(** Modelled from the spec: slice count and byte size act as hard
    caps on the chunk being built (section 4.2). *)
Definition cap_reached (t : IWEncoderParms) (count : Z) (chunk : list Z) : bool :=
  ((0 <? cpp_slices t) && (cpp_slices t <=? count))
  || ((0 <? cpp_bytes t) && (cpp_bytes t <=? Z.of_nat (length chunk))).

(** Modelled from the spec: the slices the cursor rule of section 4.1
    leaves before DONE, [(bit_plane + 1) * BANDS_PER_PLANE - band]
    (section 8, Termination). *)
Definition remaining (s : session) : nat :=
  Z.to_nat ((bit_plane s + 1) * Slice.BANDS_PER_PLANE - band s).

(** Modelled from the spec: the loop of [encode_chunk], which drives
    the Slice Codec from [cursor] and accumulates the emitted bytes
    until a cap is reached, the quality gate opens, or the codec
    reports DONE or ERROR (section 4.2).  A codec that is still not
    DONE after [remaining] slices has broken its contract, which is
    an internal fault.  The result is the status, the cursor, the
    number of slices and the chunk. *)
Fixpoint drive_codec (fuel : nat) (s : session) (t : IWEncoderParms)
    (cursor : Z * Z) (count : Z) (chunk : list Z)
  : Z * (Z * Z) * Z * list Z :=
  if cap_reached t count chunk then (Slice.MORE, cursor, count, chunk)
  else
    match fuel with
    | O => (Slice.ERROR, cursor, count, chunk)
    | S fuel' =>
        let '(encoded, next, st) :=
          encode_slice ext (coefficients s) (plane_width s, plane_height s)
            cursor (quant_lo s, quant_hi s) in
        if st =? Slice.DONE then
          (Slice.DONE, next, count + 1, chunk ++ encoded)
        else if st =? Slice.MORE then
          if PrimFloat.ltb 0%float (cpp_decibels t)
             && quality_reached ext next (cpp_decibels t)
          then (Slice.MORE, next, count + 1, chunk ++ encoded)
          else drive_codec fuel' s t next (count + 1) (chunk ++ encoded)
        else (Slice.ERROR, cursor, count, chunk)
    end.

(** Modelled from the spec: [encode_chunk(session, target) ->
    (bytes, status)] of section 4.2.  A DONE session gives an empty
    result with status DONE; a malformed target or a codec ERROR
    gives ERROR and leaves the session as it was; otherwise the
    counters grow by what the chunk holds and the session enters
    DONE once the codec reports DONE. *)
Definition session_encode_chunk (s : session) (t : IWEncoderParms)
  : outcome (Z * list Z) * session :=
  if done s then (Returns (Slice.DONE, []), s)
  else if malformed t then (Returns (Slice.ERROR, []), s)
  else
    let '(st, cursor, count, chunk) :=
      drive_codec (remaining s) s t (bit_plane s, band s) 0 [] in
    if st =? Slice.ERROR then (Returns (Slice.ERROR, []), s)
    else
      (Returns (st, chunk),
       {| coefficients := coefficients s;
          plane_width := plane_width s;
          plane_height := plane_height s;
          quant_lo := quant_lo s;
          quant_hi := quant_hi s;
          bit_plane := fst cursor;
          band := snd cursor;
          slices_so_far := slices_so_far s + count;
          bytes_so_far := bytes_so_far s + Z.of_nat (length chunk);
          done := st =? Slice.DONE |}).

(** Modelled from the spec: a fresh session of section 4.2, with the
    cursor at the initial bit plane, band 0, and both counters 0. *)
Definition fresh (plane : list Z) (width height : Z) : session :=
  {| coefficients := plane;
     plane_width := width;
     plane_height := height;
     quant_lo := fst (tables ext);
     quant_hi := snd (tables ext);
     bit_plane := initial_bit_plane ext;
     band := 0;
     slices_so_far := 0;
     bytes_so_far := 0;
     done := false |}.

(** Modelled from the spec: the width of an ingested image, the length
    of its first row (section 6, session creation inputs). *)
Definition columns {A : Type} (rows : list (list A)) : Z :=
  match rows with
  | [] => 0
  | row :: _ => Z.of_nat (length row)
  end.

(** Modelled from the spec: creation fails (gives no session) when a
    dimension is not positive (section 4.2); here the pixel
    containers [GBitmap::create] and [GPixmap::create], which receive
    the dimensions first, throw. *)
Definition container_create (rows cols : Z) : outcome unit :=
  if (0 <? rows) && (0 <? cols) then Returns tt else Throws.

(** Modelled from the spec: the session interface of section 4.2
    [create], [encode_chunk], [slices_so_far], [bytes_so_far] and
    [release], as the operations the bridge calls. *)
#[local] Instance spec_session : DjVuLibre session := {|
  GBitmap_create := container_create;
  GPixmap_create := container_create;
  create_encode_bitmap := fun bitmap mask =>
    Returns (fresh (ingest_gray ext bitmap mask)
                   (columns bitmap) (Z.of_nat (length bitmap)));
  create_encode_pixmap := fun pixmap mask =>
    Returns (fresh (ingest_rgb ext pixmap mask)
                   (columns pixmap) (Z.of_nat (length pixmap)));
  encode_chunk := session_encode_chunk;
  get_slices := fun s => Returns (slices_so_far s);
  get_bytes := fun s => Returns (bytes_so_far s);
  GP_release := fun _ => None
|}.

End Model.

(** The low-level slice primitive of simple_iw44_bridge.cpp as a Slice
    Codec: one call with a four-byte output array. *)
Definition primitive_codec (plane : list Z) (dims cursor : Z * Z)
    (quant : list Z * list Z) : list Z * (Z * Z) * Z :=
  match Slice.iw44_encode_slice_simple
          {| Slice.coeffs := Some plane;
             Slice.num_coeffs := Z.of_nat (length plane);
             Slice.width := fst dims;
             Slice.height := snd dims;
             Slice.cur_bit := fst cursor;
             Slice.cur_band := snd cursor;
             Slice.quant_lo := Some (fst quant);
             Slice.quant_hi := Some (snd quant);
             Slice.output_buffer := Some [0; 0; 0; 0];
             Slice.output_size := Some 4;
             Slice.next_bit := Some 0;
             Slice.next_band := Some 0 |} with
  | Returns r =>
      (Slice.bytes_written r,
       (default 0 (Slice.bit_out r), default 0 (Slice.band_out r)),
       Slice.status r)
  | _ => ([], cursor, Slice.ERROR)
  end.

(** Collaborators for worked examples: the primitive above as codec, a
    quality gate that never opens, the pixels themselves as
    coefficients, all-ones tables and initial bit plane 0. *)
Definition example_externals : externals :=
  {| encode_slice := primitive_codec;
     quality_reached := fun _ _ => false;
     ingest_gray := fun bitmap _ => concat bitmap;
     ingest_rgb := fun pixmap _ => (fun p => fst (fst p)) <$> concat pixmap;
     tables := (replicate 16 1, replicate 10 1);
     initial_bit_plane := 0 |}.

(** A fresh session over the 4x4 plane of zeros, and a target of one
    slice. *)
Definition example_session : session :=
  fresh example_externals (replicate 16 0) 4 4.

Definition one_slice : IW44EncodeParms :=
  {| slices := 1; bytes := 0; decibels := 0%float |}.

(** The example session after its ten slices. *)
Definition finished_session : session :=
  {| coefficients := replicate 16 0;
     plane_width := 4;
     plane_height := 4;
     quant_lo := replicate 16 1;
     quant_hi := replicate 10 1;
     bit_plane := -1;
     band := 0;
     slices_so_far := 10;
     bytes_so_far := 40;
     done := true |}.

End Session.

(** ** Measures on the cursor *)

Module Cursor.

(** The place of a cursor in the order of slices: bit planes from high
    to low and, within a plane, bands from 0 to 9.  It is the number of
    slices that come after the one at [(bit, band)] before bit plane 0 is
    finished. *)
Definition rank (bit band : Z) : Z := bit * 10 + 9 - band.

(** The cursor a caller holds after a call. *)
Definition next_cursor (r : Slice.slice_post) : option (Z * Z) :=
  match Slice.bit_out r, Slice.band_out r with
  | Some bit, Some band => Some (bit, band)
  | _, _ => None
  end.

End Cursor.

(** ** Pixel layouts *)

Module Layout.

(** The three bytes of pixel number [i] of an interleaved RGB array, as
    lines 75-78 index them: [data[i * 3]], [data[i * 3 + 1]] and
    [data[i * 3 + 2]]. *)
Definition rgb_at (data : list Z) (i : Z) : Z * Z * Z :=
  (default 0 (data !! Z.to_nat (i * 3)),
   default 0 (data !! Z.to_nat (i * 3 + 1)),
   default 0 (data !! Z.to_nat (i * 3 + 2))).

(** The channels of a [GPixel] in the order of the input bytes. *)
Definition channels (px : Z * Z * Z) : list Z :=
  [fst (fst px); snd (fst px); snd px].

(** A bitmap of [height] rows of [width] pixels whose rows, one after
    the other, are the first [width * height] bytes of [data]. *)
Definition row_major (data : list Z) (width height : Z) (rows : list (list Z)) : Prop :=
  length rows = Z.to_nat height
  /\ Forall (fun row => length row = Z.to_nat width) rows
  /\ concat rows = take (Z.to_nat (width * height)) data.

(** The same for a pixmap over the first [3 * width * height] bytes. *)
Definition row_major_rgb (data : list Z) (width height : Z)
    (rows : list (list (Z * Z * Z))) : Prop :=
  length rows = Z.to_nat height
  /\ Forall (fun row => length row = Z.to_nat width) rows
  /\ concat (channels <$> concat rows) = take (Z.to_nat (3 * width * height)) data.

(** The mask handed to [create_encode]: none for a null pointer, and
    otherwise a row-major bitmap of the mask bytes. *)
Definition mask_of (mask_data : option (list Z)) (width height : Z)
    (mask : option (list (list Z))) : Prop :=
  match mask_data, mask with
  | None, None => True
  | Some m, Some rows => row_major m width height rows
  | _, _ => False
  end.

End Layout.


(** * Properties *)

(** ** C integers and byte arrays *)

Module CIntFacts.
Import CInt.

Lemma is_int_spec z : is_int z = true <-> INT_MIN <= z <= INT_MAX.
Proof. unfold is_int. rewrite andb_true_iff, !Z.leb_le. tauto. Qed.

Lemma checked_in_range z : is_int z = true -> checked z = Returns z.
Proof. intros H. unfold checked. now rewrite H. Qed.

Lemma int_bounds : INT_MIN = -2147483648 /\ INT_MAX = 2147483647.
Proof. split; reflexivity. Qed.

End CIntFacts.

Lemma store_in_range (buf : list Z) (i : nat) (v : Z) :
  (i < length buf)%nat -> store buf i v = Returns (<[i:=v]> buf).
Proof. intros H. unfold store. destruct (decide _); [reflexivity|lia]. Qed.

(** ** The low-level slice primitive *)

Module SliceFacts.
Import CInt CIntFacts Slice.

(** The guard, read off the five tested pointers. *)
Lemma guarded_nonnull_inv c :
  guarded_nonnull c = true ->
  exists co buf cap nbit nband,
    coeffs c = Some co /\ output_buffer c = Some buf /\ output_size c = Some cap
    /\ next_bit c = Some nbit /\ next_band c = Some nband.
Proof.
  unfold guarded_nonnull. rewrite !andb_true_iff.
  destruct (coeffs c) as [co|], (output_buffer c) as [buf|],
           (output_size c) as [cap|], (next_bit c) as [nbit|],
           (next_band c) as [nband|]; cbn; intros H;
    try (exfalso; intuition discriminate).
  now exists co, buf, cap, nbit, nband.
Qed.

(** The four stores of lines 44-47 on an array of at least four bytes. *)
Lemma four_stores (buf : list Z) (v0 v1 : Z) :
  (4 <= length buf)%nat ->
  (run b0 <~ store buf 0 v0 in
   run b1 <~ store b0 1 v1 in
   run b2 <~ store b1 2 170 in
   run b3 <~ store b2 3 187 in
   Returns (b3, 4))
  = Returns ([v0; v1; 170; 187] ++ drop 4 buf, 4).
Proof.
  intros Hlen.
  destruct buf as [|x0 [|x1 [|x2 [|x3 rest]]]]; cbn in Hlen; try lia.
  rewrite store_in_range by (cbn; lia). cbn [obind].
  rewrite store_in_range by (cbn; lia). cbn [obind].
  rewrite store_in_range by (cbn; lia). cbn [obind].
  rewrite store_in_range by (cbn; lia). cbn [obind].
  reflexivity.
Qed.

(** On an array shorter than four bytes one of the stores is out of
    bounds. *)
Lemma four_stores_short (buf : list Z) (v0 v1 : Z) :
  (length buf < 4)%nat ->
  (run b0 <~ store buf 0 v0 in
   run b1 <~ store b0 1 v1 in
   run b2 <~ store b1 2 170 in
   run b3 <~ store b2 3 187 in
   Returns (b3, 4))
  = Undefined.
Proof.
  intros Hlen.
  destruct buf as [|x0 [|x1 [|x2 [|x3 rest]]]]; cbn in Hlen; try lia;
    reflexivity.
Qed.

(** A stated capacity of four or more on a shorter array: the stores of
    lines 44-47 leave the array. *)
Lemma short_buffer_undefined c buf cap :
  guarded_nonnull c = true ->
  output_buffer c = Some buf ->
  output_size c = Some cap ->
  4 <= cap ->
  (length buf < 4)%nat ->
  cursor_in_range c = true ->
  iw44_encode_slice_simple c = Undefined.
Proof.
  intros Hg Hbuf Hcap Hfour Hshort Hrange.
  destruct (guarded_nonnull_inv c Hg)
    as (co & buf0 & cap0 & nbit & nband & Hco & Hb & Hc & Hnb & Hnd).
  unfold iw44_encode_slice_simple.
  rewrite Hco, Hbuf, Hcap, Hnb, Hnd.
  unfold cursor_in_range, int_add, int_sub in *.
  apply andb_true_iff in Hrange as [Hband Hbit].
  rewrite (checked_in_range _ Hband). cbn [obind].
  apply Z.leb_le in Hfour. rewrite Hfour.
  rewrite (four_stores_short buf _ _ Hshort).
  destruct (10 <=? cur_band c + 1); [|reflexivity].
  rewrite (checked_in_range _ Hbit). reflexivity.
Qed.

(** The whole call on valid pointers, an honest capacity and a cursor
    that stays within [int]. *)
Lemma encode_slice_returns c buf cap :
  guarded_nonnull c = true ->
  output_buffer c = Some buf ->
  output_size c = Some cap ->
  buffer_fits c = true ->
  cursor_in_range c = true ->
  iw44_encode_slice_simple c =
    Returns
      {| status := if 0 <=? fst (advance (cur_bit c) (cur_band c)) then MORE else DONE;
         buffer_out := Some (if 4 <=? cap then slice_bytes c ++ drop 4 buf else buf);
         size_out := Some (if 4 <=? cap then 4 else 0);
         bit_out := Some (fst (advance (cur_bit c) (cur_band c)));
         band_out := Some (snd (advance (cur_bit c) (cur_band c))) |}.
Proof.
  intros Hg Hbuf Hcap Hfit Hrange.
  destruct (guarded_nonnull_inv c Hg)
    as (co & buf0 & cap0 & nbit & nband & Hco & Hb & Hc & Hnb & Hnd).
  unfold buffer_fits in Hfit. rewrite Hbuf, Hcap in Hfit.
  apply Z.leb_le in Hfit.
  unfold iw44_encode_slice_simple.
  rewrite Hco, Hbuf, Hcap, Hnb, Hnd.
  unfold cursor_in_range, advance, int_add, int_sub in *.
  apply andb_true_iff in Hrange as [Hband Hbit].
  rewrite (checked_in_range _ Hband). cbn [obind].
  assert (Hst : (if 4 <=? cap
                 then
                   run b0 <~ store buf 0 (to_uint8 (Z.land (cur_bit c) 255)) in
                   run b1 <~ store b0 1 (to_uint8 (Z.land (cur_band c) 255)) in
                   run b2 <~ store b1 2 170 in
                   run b3 <~ store b2 3 187 in
                   Returns (b3, 4)
                 else Returns (buf, 0))
                = Returns (if 4 <=? cap then slice_bytes c ++ drop 4 buf else buf,
                           if 4 <=? cap then 4 else 0)).
  { destruct (4 <=? cap) eqn:E; [|reflexivity].
    apply Z.leb_le in E. apply four_stores. lia. }
  destruct (10 <=? cur_band c + 1).
  - rewrite (checked_in_range _ Hbit). cbn [obind fst snd].
    rewrite Hst. reflexivity.
  - cbn [obind fst snd]. rewrite Hst. reflexivity.
Qed.

Lemma advance_within_plane bit band :
  0 <= band < BANDS_PER_PLANE - 1 -> advance bit band = (bit, band + 1).
Proof.
  unfold advance, BANDS_PER_PLANE. intros H.
  destruct (10 <=? band + 1) eqn:E; [apply Z.leb_le in E; lia|reflexivity].
Qed.

(** [advance] is the cursor rule of the specification on bands of a
    plane. *)
Lemma advance_mod bit band :
  0 <= band < BANDS_PER_PLANE ->
  advance bit band =
    (if (band + 1) mod BANDS_PER_PLANE =? 0 then bit - 1 else bit,
     (band + 1) mod BANDS_PER_PLANE).
Proof.
  unfold BANDS_PER_PLANE. intros H.
  destruct (Z.eq_dec band 9) as [->|Hne].
  - reflexivity.
  - rewrite advance_within_plane by (unfold BANDS_PER_PLANE; lia).
    rewrite Z.mod_small by lia.
    destruct (band + 1 =? 0) eqn:E; [apply Z.eqb_eq in E; lia|reflexivity].
Qed.

Lemma in_plane_cursor_in_range c :
  0 <= cur_band c < BANDS_PER_PLANE ->
  INT_MIN < cur_bit c <= INT_MAX ->
  cursor_in_range c = true.
Proof.
  unfold BANDS_PER_PLANE, cursor_in_range. intros Hband Hbit.
  pose proof int_bounds as [Hmin Hmax].
  apply andb_true_iff. split.
  - apply is_int_spec. lia.
  - destruct (10 <=? cur_band c + 1); [|reflexivity].
    apply is_int_spec. lia.
Qed.

(** C1 (amended). For every call with valid pointer arguments, a band
    with [0 <= band < 10] and a bit plane above [INT_MIN], the call
    returns the next cursor [band' = (band + 1) mod 10] with
    [bit_plane' = bit_plane - 1] when [band' = 0] and
    [bit_plane' = bit_plane] otherwise; the bit plane changes only at
    the wrap from band 9 to band 0. *)
Theorem cursor_advance_rule c :
  valid_pointers c = true ->
  0 <= cur_band c < BANDS_PER_PLANE ->
  INT_MIN < cur_bit c <= INT_MAX ->
  advances_by_rule c
  /\ (forall r bit' band',
        iw44_encode_slice_simple c = Returns r ->
        bit_out r = Some bit' -> band_out r = Some band' ->
        bit' = cur_bit c
        \/ (cur_band c = BANDS_PER_PLANE - 1 /\ band' = 0 /\ bit' = cur_bit c - 1)).
Proof.
  intros [Hg Hfit]%andb_true_iff Hband Hbit.
  destruct (guarded_nonnull_inv c Hg)
    as (co & buf & cap & nbit & nband & Hco & Hb & Hc & Hnb & Hnd).
  pose proof (encode_slice_returns c buf cap Hg Hb Hc Hfit
                (in_plane_cursor_in_range c Hband Hbit)) as Hrun.
  rewrite (advance_mod _ _ Hband) in Hrun. cbn [fst snd] in Hrun.
  split.
  - eexists. split; [exact Hrun|]. split; reflexivity.
  - intros r bit' band' Hr Hbit' Hband'.
    rewrite Hrun in Hr. injection Hr as <-. cbn in Hbit', Hband'.
    injection Hbit' as <-. injection Hband' as <-.
    unfold BANDS_PER_PLANE in *.
    destruct ((cur_band c + 1) mod 10 =? 0) eqn:E; [|now left].
    apply Z.eqb_eq in E. right.
    destruct (Z.eq_dec (cur_band c) 9) as [E9|Hne]; [now rewrite E9|].
    rewrite Z.mod_small in E by lia. lia.
Qed.

Lemma cursor_advance_rule_witness :
  advances_by_rule (at_cursor (scenario [0; 0; 0; 0] 4) 3 9).
Proof.
  apply (cursor_advance_rule (at_cursor (scenario [0; 0; 0; 0] 4) 3 9));
    [reflexivity | unfold BANDS_PER_PLANE; cbn; lia
    | pose proof int_bounds as [-> ->]; cbn; lia].
Defined.

(** C1 as stated fails where the decrement leaves [int]: at bit plane
    [INT_MIN] and band 9 line 36 overflows, the call has no defined
    result and cannot store [INT_MIN - 1]. *)
Lemma cursor_rule_fails_at_int_min :
  all_nonnull (at_cursor (scenario [0; 0; 0; 0] 4) INT_MIN 9) = true
  /\ valid_pointers (at_cursor (scenario [0; 0; 0; 0] 4) INT_MIN 9) = true
  /\ cursor_is_int (at_cursor (scenario [0; 0; 0; 0] 4) INT_MIN 9) = true
  /\ 0 <= cur_band (at_cursor (scenario [0; 0; 0; 0] 4) INT_MIN 9) < BANDS_PER_PLANE
  /\ iw44_encode_slice_simple (at_cursor (scenario [0; 0; 0; 0] 4) INT_MIN 9) = Undefined
  /\ ~ advances_by_rule (at_cursor (scenario [0; 0; 0; 0] 4) INT_MIN 9).
Proof.
  assert (Hrun : iw44_encode_slice_simple
                   (at_cursor (scenario [0; 0; 0; 0] 4) INT_MIN 9) = Undefined)
    by reflexivity.
  repeat split; try reflexivity; try (cbn; discriminate).
  intros (r & Hr & _). rewrite Hrun in Hr. discriminate.
Qed.

(** ** Termination of the caller's loop *)

(** The return value only reads the bit plane the call stored. *)
Lemma status_reads_next_bit c r bit' :
  guarded_nonnull c = true ->
  iw44_encode_slice_simple c = Returns r ->
  bit_out r = Some bit' ->
  status r = (if 0 <=? bit' then MORE else DONE).
Proof.
  intros Hg Hr Hbit.
  destruct (guarded_nonnull_inv c Hg)
    as (co & buf & cap & nbit & nband & Hco & Hb & Hc & Hnb & Hnd).
  unfold iw44_encode_slice_simple in Hr.
  rewrite Hco, Hb, Hc, Hnb, Hnd in Hr.
  destruct (int_add (cur_band c) 1) as [band1| |]; cbn [obind] in Hr;
    try discriminate.
  destruct (if 10 <=? band1
            then run bit1 <~ int_sub (cur_bit c) 1 in Returns (0, bit1)
            else Returns (band1, cur_bit c)) as [[new_band new_bit]| |];
    cbn [obind] in Hr; try discriminate.
  destruct (if 4 <=? cap then _ else _) as [[buf' size']| |];
    cbn [obind] in Hr; try discriminate.
  injection Hr as <-. cbn in Hbit. injection Hbit as <-. reflexivity.
Qed.

(** One step of the loop from a cursor inside a plane. *)
Lemma step_in_plane c bit band :
  valid_pointers c = true ->
  0 <= band < BANDS_PER_PLANE ->
  INT_MIN < bit <= INT_MAX ->
  exists r,
    iw44_encode_slice_simple (at_cursor c bit band) = Returns r
    /\ bit_out r = Some (fst (advance bit band))
    /\ band_out r = Some (snd (advance bit band))
    /\ status r = (if 0 <=? fst (advance bit band) then MORE else DONE).
Proof.
  intros [Hg Hfit]%andb_true_iff Hband Hbit.
  destruct (guarded_nonnull_inv c Hg)
    as (co & buf & cap & nbit & nband & Hco & Hb & Hc & Hnb & Hnd).
  eexists. split.
  - apply (encode_slice_returns (at_cursor c bit band) buf cap);
      [exact Hg | exact Hb | exact Hc | exact Hfit|].
    now apply in_plane_cursor_in_range.
  - cbn. auto.
Qed.

(** From [(bit, band)] the loop needs [bit * 10 + 10 - band] calls. *)
Lemma drive_from calls :
  forall bit band,
    0 <= band < BANDS_PER_PLANE ->
    0 <= bit <= INT_MAX ->
    Forall (fun c => valid_pointers c = true) calls ->
    length calls = Z.to_nat (bit * BANDS_PER_PLANE + BANDS_PER_PLANE - band) ->
    drive calls bit band
    = Returns (replicate (length calls - 1) MORE ++ [DONE], (-1, 0)).
Proof.
  induction calls as [|c rest IH]; intros bit band Hband Hbit Hok Hlen.
  - unfold BANDS_PER_PLANE in *. cbn in Hlen. lia.
  - apply Forall_cons in Hok as [Hvalid Hrest].
    pose proof int_bounds as [Hmin Hmax].
    destruct (step_in_plane c bit band Hvalid Hband ltac:(lia))
      as (r & Hr & Hbo & Hbd & Hst).
    cbn [drive]. rewrite Hr. cbn [obind]. rewrite Hbo, Hbd, Hst.
    cbn [length] in Hlen. unfold BANDS_PER_PLANE in *.
    destruct (Z.eq_dec band 9) as [->|Hne].
    + change (advance bit 9) with (bit - 1, 0). cbn [fst snd].
      destruct (Z.eq_dec bit 0) as [->|Hpos].
      * assert (rest = []) as -> by (destruct rest; [reflexivity|cbn in Hlen; lia]).
        reflexivity.
      * rewrite (IH (bit - 1) 0) by (try assumption; lia).
        cbn [obind].
        destruct (0 <=? bit - 1) eqn:E; [|apply Z.leb_gt in E; lia].
        cbn [length].
        replace (S (length rest) - 1)%nat with (S (length rest - 1)) by lia.
        reflexivity.
    + rewrite advance_within_plane by (unfold BANDS_PER_PLANE; lia).
      cbn [fst snd].
      rewrite (IH bit (band + 1)) by (try assumption; lia).
      cbn [obind].
      destruct (0 <=? bit) eqn:E; [|apply Z.leb_gt in E; lia].
      cbn [length].
      replace (S (length rest) - 1)%nat with (S (length rest - 1)) by lia.
      reflexivity.
Qed.

(** C2. For every starting bit plane [b >= 0] and starting band 0, a
    loop that feeds each returned cursor back in gets MORE from every
    call but the last and DONE from call number [(b + 1) * 10], which
    leaves the cursor at [(-1, 0)]; in every call with valid pointers the
    status is MORE exactly when the stored next bit plane is [>= 0] and
    DONE exactly when it is below 0. *)
Theorem drive_reaches_done (b : Z) (calls : list slice_call) :
  0 <= b <= INT_MAX ->
  length calls = Z.to_nat ((b + 1) * BANDS_PER_PLANE) ->
  Forall (fun c => valid_pointers c = true) calls ->
  drive calls b 0
  = Returns (replicate (length calls - 1) MORE ++ [DONE], (-1, 0))
  /\ (forall c r bit',
        valid_pointers c = true ->
        iw44_encode_slice_simple c = Returns r ->
        bit_out r = Some bit' ->
        (status r = MORE <-> 0 <= bit') /\ (status r = DONE <-> bit' < 0)).
Proof.
  intros Hb Hlen Hok. split.
  - apply drive_from; try assumption.
    + unfold BANDS_PER_PLANE. lia.
    + rewrite Hlen. f_equal. unfold BANDS_PER_PLANE. lia.
  - intros c r bit' [Hg _]%andb_true_iff Hr Hbit.
    rewrite (status_reads_next_bit c r bit' Hg Hr Hbit).
    unfold MORE, DONE.
    destruct (0 <=? bit') eqn:E;
      [apply Z.leb_le in E | apply Z.leb_gt in E]; split; split;
      intros; try lia; try reflexivity; try discriminate.
Qed.

Lemma drive_reaches_done_witness :
  drive (replicate 20 (scenario [0; 0; 0; 0] 4)) 1 0
  = Returns (replicate 19 MORE ++ [DONE], (-1, 0)).
Proof.
  apply (drive_reaches_done 1 (replicate 20 (scenario [0; 0; 0; 0] 4))).
  - pose proof int_bounds as [_ ->]. lia.
  - reflexivity.
  - apply Forall_replicate. reflexivity.
Defined.

(** ** The concrete scenario *)

(** C5 (amended). For a 4x4 plane of zeros, all-ones quantization
    tables and a starting cursor of bit plane 0 and band 0, the first
    call returns the cursor (bit_plane = 0, band = 1) with MORE; the loop
    gets MORE nine times and DONE from the tenth call, one call per
    band; that tenth call, at band 9, wraps the band to 0, drops the bit
    plane from 0 to -1 and returns the cursor (bit_plane = -1,
    band = 0). *)
Theorem scenario_ten_calls (buf : list Z) (cap : Z) :
  cap <= Z.of_nat (length buf) ->
  (exists r1,
     iw44_encode_slice_simple (scenario buf cap) = Returns r1
     /\ bit_out r1 = Some 0 /\ band_out r1 = Some 1 /\ status r1 = MORE)
  /\ drive (replicate 10 (scenario buf cap)) 0 0
     = Returns (replicate 9 MORE ++ [DONE], (-1, 0))
  /\ (exists r10,
        iw44_encode_slice_simple (at_cursor (scenario buf cap) 0 9) = Returns r10
        /\ bit_out r10 = Some (-1) /\ band_out r10 = Some 0
        /\ status r10 = DONE).
Proof.
  intros Hcap.
  assert (Hfit : valid_pointers (scenario buf cap) = true)
    by (now apply Z.leb_le).
  assert (Hbit : INT_MIN < 0 <= INT_MAX)
    by (pose proof int_bounds as [-> ->]; lia).
  split; [|split].
  - destruct (step_in_plane (scenario buf cap) 0 0 Hfit
                ltac:(unfold BANDS_PER_PLANE; lia) Hbit)
      as (r & Hr & Hbo & Hbd & Hst).
    exists r. auto.
  - apply (drive_from (replicate 10 (scenario buf cap)) 0 0).
    + unfold BANDS_PER_PLANE. lia.
    + lia.
    + apply Forall_replicate. exact Hfit.
    + reflexivity.
  - destruct (step_in_plane (scenario buf cap) 0 9 Hfit
                ltac:(unfold BANDS_PER_PLANE; lia) Hbit)
      as (r & Hr & Hbo & Hbd & Hst).
    exists r. auto.
Qed.

Lemma scenario_ten_calls_witness :
  drive (replicate 10 (scenario [0; 0; 0; 0] 4)) 0 0
  = Returns (replicate 9 MORE ++ [DONE], (-1, 0)).
Proof.
  apply (scenario_ten_calls [0; 0; 0; 0] 4). cbn. lia.
Defined.

(** C5 as stated fails at the first call, which returns the cursor
    (bit_plane = 0, band = 1) with MORE, not (bit_plane = -1,
    band = 0). *)
Lemma scenario_first_call_stays_in_plane :
  iw44_encode_slice_simple (scenario [0; 0; 0; 0] 4)
  = Returns {| status := MORE;
               buffer_out := Some [0; 0; 170; 187];
               size_out := Some 4;
               bit_out := Some 0;
               band_out := Some 1 |}
  /\ ~ (exists r,
          iw44_encode_slice_simple (scenario [0; 0; 0; 0] 4) = Returns r
          /\ bit_out r = Some (-1) /\ band_out r = Some 0).
Proof.
  split; [reflexivity|].
  intros (r & Hr & Hbit & _).
  change (iw44_encode_slice_simple (scenario [0; 0; 0; 0] 4))
    with (Returns {| status := MORE;
                     buffer_out := Some [0; 0; 170; 187];
                     size_out := Some 4;
                     bit_out := Some 0;
                     band_out := Some 1 |}) in Hr.
  injection Hr as <-. discriminate.
Qed.

(** ** The output array *)




(** ** The guard and the quantization tables *)

(** The body never reads through [quant_lo] or [quant_hi], whatever they
    point to. *)
Lemma tables_not_read c lo hi :
  iw44_encode_slice_simple (with_tables c lo hi) = iw44_encode_slice_simple c.
Proof. reflexivity. Qed.

(** C7 (amended). For every call in which the coefficient array, the
    output buffer, the output-size pointer or one of the two next-cursor
    pointers is null, the call returns ERROR (-1) before any other work
    and stores nothing through any out-parameter. *)
Theorem guard_rejects_null c :
  guarded_nonnull c = false ->
  iw44_encode_slice_simple c =
    Returns {| status := ERROR;
               buffer_out := output_buffer c; size_out := output_size c;
               bit_out := next_bit c; band_out := next_band c |}.
Proof.
  unfold guarded_nonnull, iw44_encode_slice_simple.
  destruct (coeffs c), (output_buffer c), (output_size c), (next_bit c),
           (next_band c); cbn; intros H; try reflexivity; discriminate.
Qed.

Lemma guard_rejects_null_witness :
  iw44_encode_slice_simple
    {| coeffs := Some (replicate 16 0); num_coeffs := 16;
       width := 4; height := 4; cur_bit := 0; cur_band := 0;
       quant_lo := Some (replicate 16 1); quant_hi := Some (replicate 10 1);
       output_buffer := Some [7; 7; 7; 7]; output_size := Some 4;
       next_bit := None; next_band := Some 5 |}
  = Returns {| status := ERROR;
               buffer_out := Some [7; 7; 7; 7]; size_out := Some 4;
               bit_out := None; band_out := Some 5 |}.
Proof.
  apply (guard_rejects_null
           {| coeffs := Some (replicate 16 0); num_coeffs := 16;
              width := 4; height := 4; cur_bit := 0; cur_band := 0;
              quant_lo := Some (replicate 16 1); quant_hi := Some (replicate 10 1);
              output_buffer := Some [7; 7; 7; 7]; output_size := Some 4;
              next_bit := None; next_band := Some 5 |}).
  reflexivity.
Defined.

(** C7 as stated fails for the quantization sub-tables, which the guard
    of line 26 does not test: with both null and every other pointer
    valid the call returns MORE, stores the next cursor (0, 1) and
    writes four bytes and the size 4. *)
Lemma null_quant_tables_accepted :
  is_null (quant_lo (with_tables (scenario [0; 0; 0; 0] 4) None None)) = true
  /\ is_null (quant_hi (with_tables (scenario [0; 0; 0; 0] 4) None None)) = true
  /\ iw44_encode_slice_simple (with_tables (scenario [0; 0; 0; 0] 4) None None)
     = Returns {| status := MORE;
                  buffer_out := Some [0; 0; 170; 187];
                  size_out := Some 4;
                  bit_out := Some 0;
                  band_out := Some 1 |}
  /\ ~ (exists r,
          iw44_encode_slice_simple (with_tables (scenario [0; 0; 0; 0] 4) None None)
          = Returns r
          /\ status r = ERROR).
Proof.
  repeat split.
  intros (r & Hr & Hst).
  change (iw44_encode_slice_simple (with_tables (scenario [0; 0; 0; 0] 4) None None))
    with (Returns {| status := MORE;
                     buffer_out := Some [0; 0; 170; 187];
                     size_out := Some 4;
                     bit_out := Some 0;
                     band_out := Some 1 |}) in Hr.
  injection Hr as <-. discriminate.
Qed.

(** ** Independence of the plane and the tables *)

(** A cursor that leaves [int] on line 31 or 36. *)
Lemma encode_slice_overflow c :
  guarded_nonnull c = true ->
  cursor_in_range c = false ->
  iw44_encode_slice_simple c = Undefined.
Proof.
  intros Hg Hrange.
  destruct (guarded_nonnull_inv c Hg)
    as (co & buf & cap & nbit & nband & Hco & Hb & Hc & Hnb & Hnd).
  unfold iw44_encode_slice_simple. rewrite Hco, Hb, Hc, Hnb, Hnd.
  unfold cursor_in_range in Hrange. unfold int_add, int_sub, checked.
  destruct (is_int (cur_band c + 1)); [|reflexivity].
  cbn [obind]. cbn [andb] in Hrange.
  destruct (10 <=? cur_band c + 1); [|discriminate].
  rewrite Hrange. reflexivity.
Qed.




End SliceFacts.

(** ** The session bridge *)

Module BridgeFacts.
Import CInt CIntFacts Bridge Session.

(** *** Null handles *)

(** C9. On a null session handle [iw44_encode_chunk], [iw44_get_slices]
    and [iw44_get_bytes] return -1, the first without storing anything
    through its out-parameters, and [iw44_encoder_free] does nothing;
    none of them has undefined behaviour, whatever the other arguments
    are. *)
Theorem null_handle_is_rejected `{DjVuLibre Img} (malloc : Z -> bool)
    (p : ptr IW44EncodeParms) (d : ptr (ptr (list Z))) (z : ptr Z) :
  iw44_encode_chunk malloc
    {| encoder := None; parms := p; output_data := d; output_size := z |}
  = Returns {| chunk_status := -1; encoder_out := @None Img;
               data_out := d; size_out := z |}
  /\ iw44_get_slices (@None Img) = Returns (-1)
  /\ iw44_get_bytes (@None Img) = Returns (-1)
  /\ iw44_encoder_free (@None Img) = None.
Proof. repeat split. Qed.

(** Any null pointer among the four arguments of [iw44_encode_chunk]. *)
Lemma encode_chunk_guard `{DjVuLibre Img} (malloc : Z -> bool) (c : chunk_call Img) :
  is_null (encoder c) || is_null (parms c)
  || is_null (output_data c) || is_null (output_size c) = true ->
  iw44_encode_chunk malloc c = Returns (leave c (-1) (encoder c)).
Proof.
  unfold iw44_encode_chunk.
  destruct (encoder c), (parms c), (output_data c), (output_size c);
    cbn; intros Hnull; try reflexivity; discriminate.
Qed.

(** *** Creation *)

Lemma seqZ_from_zero (n : Z) : 0 < n -> seqZ 0 n = 0 :: seqZ 1 (n - 1).
Proof. intros Hn. now rewrite seqZ_cons by lia. Qed.

(** With at least one pixel to copy, line 36 reads through a null
    [image_data]. *)
Lemma copy_gray_null (width height : Z) :
  0 < width -> 0 < height -> copy_gray None width height = Undefined.
Proof.
  intros Hw Hh. unfold copy_gray, for_upto.
  rewrite (seqZ_from_zero height Hh). cbn [for_each].
  rewrite (seqZ_from_zero width Hw). cbn [for_each].
  unfold int_mul. rewrite Z.mul_0_l. reflexivity.
Qed.

(** The same for lines 76-78. *)
Lemma copy_rgb_null (width height : Z) :
  0 < width -> 0 < height -> copy_rgb None width height = Undefined.
Proof.
  intros Hw Hh. unfold copy_rgb, for_upto.
  rewrite (seqZ_from_zero height Hh). cbn [for_each].
  rewrite (seqZ_from_zero width Hw). cbn [for_each].
  unfold int_mul. rewrite Z.mul_0_l. reflexivity.
Qed.

(** Without rows there is nothing to copy: the loops of lines 33-38 do
    not run and [image_data] is not looked at. *)
Lemma copy_gray_no_rows (data : ptr (list Z)) (width height : Z) :
  height <= 0 -> copy_gray data width height = Returns [].
Proof.
  intros Hh. unfold copy_gray, for_upto, seqZ.
  replace (Z.to_nat height) with 0%nat by lia. reflexivity.
Qed.

(** The bridge has no test of its own on the dimensions: with no rows
    and no mask, whether a session comes back is up to
    [GBitmap::create] and [IW44Image::create_encode]. *)
Lemma new_grayscale_no_rows `{DjVuLibre Img} (data : ptr (list Z)) (width height : Z) :
  height <= 0 ->
  iw44_encoder_new_grayscale data width height None
  = try_catch
      (run _ <~ GBitmap_create height width in
       run encoder <~ create_encode_bitmap [] None in
       Returns (Some encoder))
      None.
Proof.
  intros Hh. unfold iw44_encoder_new_grayscale.
  rewrite (copy_gray_no_rows data width height Hh).
  destruct (GBitmap_create height width); reflexivity.
Qed.

(** On the modelled collaborators, whose pixel containers throw on a
    dimension that is not positive, both creation functions catch the
    exception and return the null handle. *)
Lemma modelled_creation_rejects_dimensions (ext : externals)
    (image_data mask_data : ptr (list Z)) (width height : Z) :
  width <= 0 \/ height <= 0 ->
  @iw44_encoder_new_grayscale session (spec_session ext)
    image_data width height mask_data = Returns None
  /\ @iw44_encoder_new_color session (spec_session ext)
       image_data width height mask_data = Returns None.
Proof.
  intros Hdim.
  assert (Hthrow : container_create height width = Throws).
  { unfold container_create.
    destruct (0 <? height) eqn:Eh; [|reflexivity].
    destruct (0 <? width) eqn:Ew; [|reflexivity].
    apply Z.ltb_lt in Eh, Ew. lia. }
  unfold iw44_encoder_new_grayscale, iw44_encoder_new_color.
  cbn [GBitmap_create GPixmap_create spec_session].
  rewrite Hthrow. split; reflexivity.
Qed.

(** C8. The creation functions do not test the pixel buffer: with a
    null [image_data], positive dimensions and a pixel container that
    is created without an exception, both [iw44_encoder_new_grayscale]
    and [iw44_encoder_new_color] read through the null pointer, which is
    undefined behaviour and not the return of a null handle. *)
Theorem null_pixel_buffer_is_read `{DjVuLibre Img}
    (width height : Z) (mask_data : ptr (list Z)) :
  0 < width -> 0 < height ->
  (GBitmap_create height width = Returns tt ->
   iw44_encoder_new_grayscale None width height mask_data = Undefined)
  /\ (GPixmap_create height width = Returns tt ->
      iw44_encoder_new_color None width height mask_data = Undefined).
Proof.
  intros Hw Hh. split; intros Hcreate.
  - unfold iw44_encoder_new_grayscale. rewrite Hcreate. cbn [obind].
    now rewrite copy_gray_null.
  - unfold iw44_encoder_new_color. rewrite Hcreate. cbn [obind].
    now rewrite copy_rgb_null.
Qed.

Lemma null_pixel_buffer_is_read_witness :
  @iw44_encoder_new_grayscale session (spec_session example_externals)
    None 1 1 None = Undefined
  /\ @iw44_encoder_new_color session (spec_session example_externals)
       None 1 1 None = Undefined.
Proof.
  split;
    apply (@null_pixel_buffer_is_read session (spec_session example_externals)
             1 1 None); (lia || reflexivity).
Defined.

(** *** The session counters *)

(** The loop of the session only adds slices and bytes. *)
Lemma drive_codec_count ext fuel :
  forall s t cursor count chunk st cursor' count' chunk',
    drive_codec ext fuel s t cursor count chunk = (st, cursor', count', chunk') ->
    count <= count' /\ (length chunk <= length chunk')%nat.
Proof.
  induction fuel as [|fuel IH];
    intros s t cursor count chunk st cursor' count' chunk' Hrun;
    cbn [drive_codec] in Hrun.
  - destruct (cap_reached t count chunk); injection Hrun as <- <- <- <-; lia.
  - destruct (cap_reached t count chunk);
      [injection Hrun as <- <- <- <-; lia|].
    destruct (encode_slice ext _ _ _ _) as [[encoded next] code].
    destruct (code =? Slice.DONE);
      [injection Hrun as <- <- <- <-; rewrite length_app; lia|].
    destruct (code =? Slice.MORE);
      [|injection Hrun as <- <- <- <-; lia].
    destruct (_ && _).
    + injection Hrun as <- <- <- <-. rewrite length_app. lia.
    + apply IH in Hrun. rewrite length_app in Hrun. lia.
Qed.

(** Modelled session: a call always returns, the counters never
    decrease, and a call that reports ERROR leaves the session as it
    was. *)
Lemma session_encode_chunk_spec ext s t :
  exists st chunk s',
    session_encode_chunk ext s t = (Returns (st, chunk), s')
    /\ slices_so_far s <= slices_so_far s'
    /\ bytes_so_far s <= bytes_so_far s'
    /\ (st = Slice.ERROR -> s' = s).
Proof.
  unfold session_encode_chunk.
  destruct (done s).
  { exists Slice.DONE, [], s. repeat split; lia. }
  destruct (malformed t).
  { exists Slice.ERROR, [], s. repeat split; lia. }
  destruct (drive_codec ext _ _ _ _ _ _) as [[[st cursor] count] chunk] eqn:E.
  apply drive_codec_count in E. cbn [length] in E.
  destruct (st =? Slice.ERROR) eqn:Est.
  { exists Slice.ERROR, [], s. repeat split; lia. }
  eexists st, chunk, _. split; [reflexivity|]. cbn.
  repeat split; lia.
Qed.

(** In the bridge the session has already run when line 134 allocates:
    a failed allocation returns -1 with the session as [encode_chunk]
    left it, for every implementation of the session. *)
Lemma failed_malloc_after_encoding `{DjVuLibre Img} (malloc : Z -> bool)
    (iw44 iw44' : Img) (p : IW44EncodeParms)
    (d : ptr (list Z)) (z : Z) (result : Z) (stream : list Z) :
  encode_chunk iw44 {| cpp_slices := slices p; cpp_bytes := bytes p;
                       cpp_decibels := decibels p |}
  = (Returns (result, stream), iw44') ->
  0 < result ->
  malloc (Z.of_nat (length stream)) = false ->
  iw44_encode_chunk malloc
    {| encoder := Some iw44; parms := Some p;
       output_data := Some d; output_size := Some z |}
  = Returns {| chunk_status := -1; encoder_out := Some iw44';
               data_out := Some d; size_out := Some z |}.
Proof.
  intros Hcore Hpos Hfail. unfold iw44_encode_chunk.
  cbn [encoder parms output_data output_size].
  rewrite Hcore.
  destruct (result <=? 0) eqn:E; [apply Z.leb_le in E; lia|].
  now rewrite Hfail.
Qed.

(** One call on the modelled session. *)
Lemma encode_chunk_step (ext : externals) (malloc : Z -> bool) (s : session)
    (target : ptr IW44EncodeParms) (d : ptr (ptr (list Z))) (z : ptr Z) :
  exists r s',
    @iw44_encode_chunk session (spec_session ext) malloc
      {| encoder := Some s; parms := target;
         output_data := d; output_size := z |} = Returns r
    /\ encoder_out r = Some s'
    /\ slices_so_far s <= slices_so_far s'
    /\ bytes_so_far s <= bytes_so_far s'
    /\ (chunk_status r <= 0 -> data_out r = d /\ size_out r = z)
    /\ (chunk_status r = Slice.ERROR ->
        s' = s
        \/ exists p result stream,
             target = Some p
             /\ session_encode_chunk ext s
                  {| cpp_slices := slices p; cpp_bytes := bytes p;
                     cpp_decibels := decibels p |}
                = (Returns (result, stream), s')
             /\ 0 < result
             /\ malloc (Z.of_nat (length stream)) = false).
Proof.
  unfold iw44_encode_chunk. cbn [encoder parms output_data output_size].
  destruct target as [p|], d as [d|], z as [z|];
    try (eexists _, s; split; [reflexivity|]; cbn;
         repeat split; try lia; intros _; now left).
  cbn [encode_chunk spec_session].
  destruct (session_encode_chunk_spec ext s
              {| cpp_slices := slices p; cpp_bytes := bytes p;
                 cpp_decibels := decibels p |})
    as (st & chunk & s' & Hcore & Hsl & Hby & Herr).
  rewrite Hcore.
  destruct (st <=? 0) eqn:Est.
  - eexists _, s'. split; [reflexivity|]. cbn.
    repeat split; try assumption. intros Hst. left. now apply Herr.
  - apply Z.leb_gt in Est.
    destruct (malloc (Z.of_nat (length chunk))) eqn:Hm.
    + eexists _, s'. split; [reflexivity|]. cbn.
      repeat split; try assumption; try lia.
      unfold Slice.ERROR. intros Hst. lia.
    + eexists _, s'. split; [reflexivity|]. cbn.
      repeat split; try assumption. intros _. right.
      exists p, st, chunk. auto.
Qed.

(** The counters of the modelled session across calls of the bridge:
    over every sequence of [iw44_encode_chunk] calls the values reported
    by [iw44_get_slices] and [iw44_get_bytes] do not decrease; a call
    that returns a status of 0 or below stores nothing through the
    out-parameters; and a call that returns the ERROR status leaves the
    session as it was unless the allocation of line 134 failed after
    the session had encoded the chunk. *)
Lemma counters_across_calls (ext : externals) (s : session) :
  (forall steps target d z,
     exists statuses last slices' bytes',
       @chunk_sequence session (spec_session ext) steps
         {| encoder := Some s; parms := target;
            output_data := d; output_size := z |}
       = Returns (statuses, last)
       /\ @iw44_get_slices session (spec_session ext) (encoder last)
          = Returns slices'
       /\ @iw44_get_bytes session (spec_session ext) (encoder last)
          = Returns bytes'
       /\ slices_so_far s <= slices'
       /\ bytes_so_far s <= bytes')
  /\ (forall malloc target d z,
        exists r s',
          @iw44_encode_chunk session (spec_session ext) malloc
            {| encoder := Some s; parms := target;
               output_data := d; output_size := z |} = Returns r
          /\ encoder_out r = Some s'
          /\ (chunk_status r <= 0 -> data_out r = d /\ size_out r = z)
          /\ (chunk_status r = Slice.ERROR ->
              s' = s
              \/ exists p result stream,
                   target = Some p
                   /\ session_encode_chunk ext s
                        {| cpp_slices := slices p; cpp_bytes := bytes p;
                           cpp_decibels := decibels p |}
                      = (Returns (result, stream), s')
                   /\ 0 < result
                   /\ malloc (Z.of_nat (length stream)) = false)).
Proof.
  split.
  - intros steps. revert s.
    induction steps as [|[malloc target'] rest IH]; intros s target d z.
    + exists [], {| encoder := Some s; parms := target;
                    output_data := d; output_size := z |},
        (slices_so_far s), (bytes_so_far s).
      repeat split; reflexivity || lia.
    + cbn [chunk_sequence encoder output_data output_size].
      destruct (encode_chunk_step ext malloc s target' d z)
        as (r & s' & Hr & Hs' & Hsl & Hby & _).
      rewrite Hr. cbn [obind]. rewrite Hs'.
      destruct (IH s' target' (data_out r) (size_out r))
        as (statuses & last & sl & by_ & Hseq & Hgs & Hgb & Hsl' & Hby').
      rewrite Hseq. cbn [obind].
      exists (chunk_status r :: statuses), last, sl, by_.
      repeat split; try assumption; lia.
  - intros malloc target d z.
    destruct (encode_chunk_step ext malloc s target d z)
      as (r & s' & Hr & Hs' & _ & _ & Houts & Herr).
    exists r, s'. auto.
Qed.

(** C4. A call of [iw44_encode_chunk] that returns the ERROR status
    should leave both counters as they were, also when the allocation
    of the output buffer fails.  The bridge does not: on a fresh session
    and a target of one slice, with the allocation of line 134 failing,
    the call returns -1 and stores nothing through the out-parameters,
    while the slice counter reported by [iw44_get_slices] has gone from
    0 to 1 and the byte counter reported by [iw44_get_bytes] from 0 to
    4. *)
Theorem failed_allocation_advances_counters :
  exists r,
    @iw44_encode_chunk session (spec_session example_externals) (fun _ => false)
      {| encoder := Some example_session; parms := Some one_slice;
         output_data := Some None; output_size := Some 0 |}
    = Returns r
    /\ chunk_status r = Slice.ERROR
    /\ data_out r = Some None /\ size_out r = Some 0
    /\ @iw44_get_slices session (spec_session example_externals)
         (Some example_session) = Returns 0
    /\ @iw44_get_slices session (spec_session example_externals)
         (encoder_out r) = Returns 1
    /\ @iw44_get_bytes session (spec_session example_externals)
         (Some example_session) = Returns 0
    /\ @iw44_get_bytes session (spec_session example_externals)
         (encoder_out r) = Returns 4.
Proof. eexists. repeat split. Qed.

(** *** The terminal state *)

(** C3 (amended). On a session in the terminal DONE state
    [iw44_encode_chunk], called with valid pointers, returns the DONE
    status 0 and not -1 and stores nothing through [output_data] and
    [output_size], which keep what the caller had there; it leaves the
    session, and so the values of [iw44_get_slices] and
    [iw44_get_bytes], as they were; the same holds for any number [n] of
    calls in a row.  The empty chunk of the modelled [encode_chunk]
    stays in the stream of line 122. *)
Theorem done_session_is_idempotent (ext : externals) (malloc : Z -> bool)
    (s : session) (p : IW44EncodeParms) (d : ptr (list Z)) (z : Z) (n : nat) :
  done s = true ->
  session_encode_chunk ext s
    {| cpp_slices := slices p; cpp_bytes := bytes p; cpp_decibels := decibels p |}
  = (Returns (Slice.DONE, []), s)
  /\ @iw44_encode_chunk session (spec_session ext) malloc
       {| encoder := Some s; parms := Some p;
          output_data := Some d; output_size := Some z |}
     = Returns {| chunk_status := Slice.DONE; encoder_out := Some s;
                  data_out := Some d; size_out := Some z |}
  /\ @chunk_sequence session (spec_session ext) (replicate n (malloc, Some p))
       {| encoder := Some s; parms := Some p;
          output_data := Some d; output_size := Some z |}
     = Returns (replicate n Slice.DONE,
                {| encoder := Some s; parms := Some p;
                   output_data := Some d; output_size := Some z |})
  /\ (forall r,
        @iw44_encode_chunk session (spec_session ext) malloc
          {| encoder := Some s; parms := Some p;
             output_data := Some d; output_size := Some z |} = Returns r ->
        @iw44_get_slices session (spec_session ext) (encoder_out r)
        = @iw44_get_slices session (spec_session ext) (Some s)
        /\ @iw44_get_bytes session (spec_session ext) (encoder_out r)
           = @iw44_get_bytes session (spec_session ext) (Some s)).
Proof.
  intros Hdone.
  assert (Hcore : session_encode_chunk ext s
                    {| cpp_slices := slices p; cpp_bytes := bytes p;
                       cpp_decibels := decibels p |}
                  = (Returns (Slice.DONE, []), s))
    by (unfold session_encode_chunk; now rewrite Hdone).
  assert (Hcall : @iw44_encode_chunk session (spec_session ext) malloc
                    {| encoder := Some s; parms := Some p;
                       output_data := Some d; output_size := Some z |}
                  = Returns {| chunk_status := Slice.DONE; encoder_out := Some s;
                               data_out := Some d; size_out := Some z |}).
  { unfold iw44_encode_chunk.
    cbn [encoder parms output_data output_size encode_chunk spec_session].
    rewrite Hcore. reflexivity. }
  split; [exact Hcore|]. split; [exact Hcall|]. split.
  - induction n as [|n IH]; [reflexivity|].
    cbn [replicate chunk_sequence encoder output_data output_size].
    rewrite Hcall.
    cbn [obind encoder_out data_out size_out parms chunk_status].
    rewrite IH. reflexivity.
  - intros r Hr. rewrite Hcall in Hr. injection Hr as <-.
    split; reflexivity.
Qed.

Lemma done_session_is_idempotent_witness :
  done finished_session = true
  /\ @chunk_sequence session (spec_session example_externals)
       (replicate 3 (fun _ => true, Some one_slice))
       {| encoder := Some finished_session; parms := Some one_slice;
          output_data := Some (Some [0; 8; 170; 187]);
          output_size := Some 4 |}
     = Returns (replicate 3 Slice.DONE,
                {| encoder := Some finished_session; parms := Some one_slice;
                   output_data := Some (Some [0; 8; 170; 187]);
                   output_size := Some 4 |}).
Proof.
  split; [reflexivity|].
  apply (done_session_is_idempotent example_externals (fun _ => true)
           finished_session one_slice (Some [0; 8; 170; 187]) 4 3).
  reflexivity.
Defined.

(** C3 as stated fails for the result chunk: a call on the finished
    example session whose out-parameters still hold the chunk of an
    earlier call returns DONE with that chunk and its size 4 in place;
    no empty chunk comes back. *)
Lemma done_call_keeps_stale_chunk :
  done finished_session = true
  /\ @iw44_encode_chunk session (spec_session example_externals) (fun _ => true)
       {| encoder := Some finished_session; parms := Some one_slice;
          output_data := Some (Some [0; 8; 170; 187]);
          output_size := Some 4 |}
     = Returns {| chunk_status := Slice.DONE;
                  encoder_out := Some finished_session;
                  data_out := Some (Some [0; 8; 170; 187]);
                  size_out := Some 4 |}
  /\ ~ (exists r,
          @iw44_encode_chunk session (spec_session example_externals)
            (fun _ => true)
            {| encoder := Some finished_session; parms := Some one_slice;
               output_data := Some (Some [0; 8; 170; 187]);
               output_size := Some 4 |} = Returns r
          /\ chunk_status r = Slice.DONE
          /\ (size_out r = Some 0 \/ data_out r = Some None
              \/ data_out r = Some (Some []))).
Proof.
  split; [reflexivity|]. split; [reflexivity|].
  intros (r & Hr & _ & Hempty).
  change (@iw44_encode_chunk session (spec_session example_externals)
            (fun _ => true)
            {| encoder := Some finished_session; parms := Some one_slice;
               output_data := Some (Some [0; 8; 170; 187]);
               output_size := Some 4 |})
    with (Returns {| chunk_status := Slice.DONE;
                     encoder_out := Some finished_session;
                     data_out := Some (Some [0; 8; 170; 187]);
                     size_out := Some 4 |}) in Hr.
  injection Hr as <-. cbn in Hempty.
  destruct Hempty as [H|[H|H]]; discriminate.
Qed.

(** [finished_session] is where the example session ends: ten calls
    with a target of one slice each, the last of which reports DONE and
    leaves the chunk of the ninth call in the out-parameters. *)
Lemma example_session_finishes :
  @chunk_sequence session (spec_session example_externals)
    (replicate 10 (fun _ => true, Some one_slice))
    {| encoder := Some example_session; parms := Some one_slice;
       output_data := Some None; output_size := Some 0 |}
  = Returns (replicate 9 Slice.MORE ++ [Slice.DONE],
             {| encoder := Some finished_session; parms := Some one_slice;
                output_data := Some (Some [0; 8; 170; 187]);
                output_size := Some 4 |}).
Proof. reflexivity. Qed.

End BridgeFacts.

(** ** More on the slice primitive *)

Module SliceMore.
Import CInt CIntFacts Slice SliceFacts Cursor.

Lemma low_byte (x : Z) : to_uint8 (Z.land x 255) = x mod 256.
Proof.
  unfold to_uint8. change 255 with (Z.ones 8).
  rewrite Z.land_ones by lia. change (2 ^ 8) with 256.
  apply Z.mod_mod. lia.
Qed.

(** X1. With a stated capacity of at least four, the call leaves the
    array with its length, writes the low byte of the bit plane, the low
    byte of the band and the markers 0xAA, 0xBB into its first four
    bytes, each a value below 256, and changes no byte after them. *)
Theorem written_bytes c buf cap :
  valid_pointers c = true ->
  output_buffer c = Some buf ->
  output_size c = Some cap ->
  4 <= cap ->
  cursor_in_range c = true ->
  exists r buf',
    iw44_encode_slice_simple c = Returns r
    /\ buffer_out r = Some buf'
    /\ length buf' = length buf
    /\ take 4 buf' = [cur_bit c mod 256; cur_band c mod 256; 170; 187]
    /\ drop 4 buf' = drop 4 buf
    /\ Forall (fun b => 0 <= b < 256) (take 4 buf').
Proof.
  intros Hvalid Hb Hc Hfour Hrange.
  pose proof Hvalid as [Hg Hfit]%andb_true_iff.
  pose proof (encode_slice_returns c buf cap Hg Hb Hc Hfit Hrange) as Hrun.
  assert (Hlen : (4 <= length buf)%nat).
  { unfold buffer_fits in Hfit. rewrite Hb, Hc in Hfit.
    apply Z.leb_le in Hfit. lia. }
  apply Z.leb_le in Hfour. rewrite Hfour in Hrun.
  eexists _, _. split; [exact Hrun|]. cbn [buffer_out].
  split; [reflexivity|].
  unfold slice_bytes. rewrite !low_byte.
  split; [|split; [reflexivity|split]].
  - rewrite length_app, length_drop. cbn [length]. lia.
  - rewrite drop_app_length'; reflexivity.
  - cbn [take app].
    repeat constructor; try lia; apply Z.mod_pos_bound; lia.
Qed.

Lemma written_bytes_witness :
  exists r buf',
    iw44_encode_slice_simple (at_cursor (scenario [9; 9; 9; 9; 9; 9] 5) (-1) 7)
    = Returns r
    /\ buffer_out r = Some buf'
    /\ length buf' = 6%nat
    /\ take 4 buf' = [(-1) mod 256; 7 mod 256; 170; 187]
    /\ drop 4 buf' = [9; 9]
    /\ Forall (fun b => 0 <= b < 256) (take 4 buf').
Proof.
  apply (written_bytes (at_cursor (scenario [9; 9; 9; 9; 9; 9] 5) (-1) 7)
           [9; 9; 9; 9; 9; 9] 5); (reflexivity || lia).
Defined.



(** X3. On a band of the plane every call moves the cursor exactly one
    place down the order of slices: either the bit plane stays and the
    band grows, or the bit plane drops by one; the rank drops by one. *)
Theorem cursor_strictly_advances c :
  valid_pointers c = true ->
  0 <= cur_band c < BANDS_PER_PLANE ->
  INT_MIN < cur_bit c <= INT_MAX ->
  exists r bit' band',
    iw44_encode_slice_simple c = Returns r
    /\ next_cursor r = Some (bit', band')
    /\ rank bit' band' = rank (cur_bit c) (cur_band c) - 1
    /\ (bit' < cur_bit c \/ (bit' = cur_bit c /\ cur_band c < band'))
    /\ 0 <= band' < BANDS_PER_PLANE.
Proof.
  intros Hvalid Hband Hbit.
  pose proof Hvalid as [Hg Hfit]%andb_true_iff.
  destruct (guarded_nonnull_inv c Hg)
    as (co & buf & cap & nbit & nband & Hco & Hb & Hc & Hnb & Hnd).
  pose proof (encode_slice_returns c buf cap Hg Hb Hc Hfit
                (in_plane_cursor_in_range c Hband Hbit)) as Hrun.
  eexists _, _, _. split; [exact Hrun|].
  unfold next_cursor. cbn [bit_out band_out]. split; [reflexivity|].
  unfold advance, rank, BANDS_PER_PLANE in *.
  destruct (10 <=? cur_band c + 1) eqn:E;
    [apply Z.leb_le in E | apply Z.leb_gt in E]; cbn [fst snd];
    repeat split; lia.
Qed.

Lemma cursor_strictly_advances_witness :
  exists r bit' band',
    iw44_encode_slice_simple (at_cursor (scenario [0; 0; 0; 0] 4) 2 9) = Returns r
    /\ next_cursor r = Some (bit', band')
    /\ rank bit' band' = rank 2 9 - 1
    /\ (bit' < 2 \/ (bit' = 2 /\ 9 < band'))
    /\ 0 <= band' < BANDS_PER_PLANE.
Proof.
  apply (cursor_strictly_advances (at_cursor (scenario [0; 0; 0; 0] 4) 2 9));
    [reflexivity | unfold BANDS_PER_PLANE; cbn; lia
    | pose proof int_bounds as [-> ->]; cbn; lia].
Defined.

(** X4. For valid pointers and an [int] cursor the call has undefined
    behaviour in exactly two cases, both signed overflows: the band is
    [INT_MAX] (line 31), or the band is at least 9 and the bit plane is
    [INT_MIN] (line 36).  In every other case it returns. *)
Theorem undefined_exactly_on_overflow c :
  valid_pointers c = true ->
  cursor_is_int c = true ->
  (iw44_encode_slice_simple c = Undefined
   <-> cur_band c = INT_MAX \/ (9 <= cur_band c /\ cur_bit c = INT_MIN))
  /\ (iw44_encode_slice_simple c <> Undefined ->
      exists r, iw44_encode_slice_simple c = Returns r).
Proof.
  intros Hvalid Hint.
  pose proof Hvalid as [Hg Hfit]%andb_true_iff.
  destruct (guarded_nonnull_inv c Hg)
    as (co & buf & cap & nbit & nband & Hco & Hb & Hc & Hnb & Hnd).
  apply andb_true_iff in Hint as [Hbit%is_int_spec Hband%is_int_spec].
  pose proof int_bounds as [Hmin Hmax].
  destruct (cursor_in_range c) eqn:Hrange.
  - pose proof (encode_slice_returns c buf cap Hg Hb Hc Hfit Hrange) as Hrun.
    rewrite Hrun. split; [|intros _; eauto].
    split; [discriminate|]. intros Hover. exfalso.
    unfold cursor_in_range in Hrange.
    apply andb_true_iff in Hrange as [Hb1%is_int_spec Hb2].
    destruct Hover as [Hover|[H9 Hover]]; [lia|].
    destruct (10 <=? cur_band c + 1) eqn:E;
      [apply is_int_spec in Hb2; lia | apply Z.leb_gt in E; lia].
  - rewrite (encode_slice_overflow c Hg Hrange).
    split; [|intros Hne; now contradiction Hne].
    split; [|reflexivity]. intros _.
    unfold cursor_in_range in Hrange.
    destruct (is_int (cur_band c + 1)) eqn:E1.
    + cbn [andb] in Hrange. apply is_int_spec in E1.
      destruct (10 <=? cur_band c + 1) eqn:E; [|discriminate].
      apply Z.leb_le in E. right. split; [lia|].
      destruct (Z.eq_dec (cur_bit c) INT_MIN) as [|Hne]; [assumption|].
      assert (is_int (cur_bit c - 1) = true) by (apply is_int_spec; lia).
      congruence.
    + left.
      destruct (Z.eq_dec (cur_band c) INT_MAX) as [|Hne]; [assumption|].
      assert (is_int (cur_band c + 1) = true) by (apply is_int_spec; lia).
      congruence.
Qed.

Lemma undefined_exactly_on_overflow_witness :
  iw44_encode_slice_simple (at_cursor (scenario [0; 0; 0; 0] 4) 0 INT_MAX)
  = Undefined
  <-> INT_MAX = INT_MAX \/ (9 <= INT_MAX /\ 0 = INT_MIN).
Proof.
  apply (undefined_exactly_on_overflow
           (at_cursor (scenario [0; 0; 0; 0] 4) 0 INT_MAX));
    reflexivity.
Defined.



(** X6. The cursor is a resumption token: from any cursor with a bit
    plane [bit >= 0] and a band of the plane, a loop that feeds each
    returned cursor back in gets MORE from every call but the last and
    DONE from call number [bit * 10 + 10 - band], which leaves the
    cursor at (-1, 0). *)
Theorem resume_reaches_done (bit band : Z) (calls : list slice_call) :
  0 <= bit <= INT_MAX ->
  0 <= band < BANDS_PER_PLANE ->
  length calls = Z.to_nat (rank bit band + 1) ->
  Forall (fun c => valid_pointers c = true) calls ->
  drive calls bit band
  = Returns (replicate (length calls - 1) MORE ++ [DONE], (-1, 0)).
Proof.
  intros Hbit Hband Hlen Hok.
  apply drive_from; try assumption.
  rewrite Hlen. unfold rank, BANDS_PER_PLANE. f_equal. lia.
Qed.

Lemma resume_reaches_done_witness :
  drive (replicate 13 (scenario [0; 0; 0; 0] 4)) 1 7
  = Returns (replicate 12 MORE ++ [DONE], (-1, 0)).
Proof.
  apply (resume_reaches_done 1 7 (replicate 13 (scenario [0; 0; 0; 0] 4))).
  - pose proof int_bounds as [_ ->]. lia.
  - unfold BANDS_PER_PLANE. lia.
  - reflexivity.
  - apply Forall_replicate. reflexivity.
Defined.




(** X8. Progress does not wait for the output: two calls with valid
    pointers at the same cursor return the same status and the same next
    cursor whatever their output arrays and stated capacities are, so a
    caller with too small an array is moved past a slice it never
    received. *)
Theorem progress_ignores_capacity c1 c2 :
  valid_pointers c1 = true ->
  valid_pointers c2 = true ->
  cur_bit c1 = cur_bit c2 ->
  cur_band c1 = cur_band c2 ->
  cursor_in_range c1 = true ->
  exists r1 r2,
    iw44_encode_slice_simple c1 = Returns r1
    /\ iw44_encode_slice_simple c2 = Returns r2
    /\ status r1 = status r2
    /\ next_cursor r1 = next_cursor r2
    /\ (forall cap, output_size c2 = Some cap -> cap < 4 ->
        size_out r2 = Some 0 /\ buffer_out r2 = output_buffer c2).
Proof.
  intros Hv1 Hv2 Hbit Hband Hrange1.
  pose proof Hv1 as [Hg1 Hfit1]%andb_true_iff.
  pose proof Hv2 as [Hg2 Hfit2]%andb_true_iff.
  destruct (guarded_nonnull_inv c1 Hg1)
    as (co1 & buf1 & cap1 & ? & ? & _ & Hb1 & Hc1 & _).
  destruct (guarded_nonnull_inv c2 Hg2)
    as (co2 & buf2 & cap2 & ? & ? & _ & Hb2 & Hc2 & _).
  assert (Hrange2 : cursor_in_range c2 = true)
    by (unfold cursor_in_range in *; now rewrite <- Hbit, <- Hband).
  eexists _, _.
  split; [exact (encode_slice_returns c1 buf1 cap1 Hg1 Hb1 Hc1 Hfit1 Hrange1)|].
  split; [exact (encode_slice_returns c2 buf2 cap2 Hg2 Hb2 Hc2 Hfit2 Hrange2)|].
  unfold next_cursor. cbn [status bit_out band_out size_out buffer_out].
  rewrite Hbit, Hband.
  split; [reflexivity|]. split; [reflexivity|].
  intros cap Hcap Hsmall. rewrite Hc2 in Hcap. injection Hcap as <-.
  rewrite Hb2.
  destruct (4 <=? cap2) eqn:E; [apply Z.leb_le in E; lia|].
  split; reflexivity.
Qed.

Lemma progress_ignores_capacity_witness :
  exists r1 r2,
    iw44_encode_slice_simple (at_cursor (scenario [0; 0; 0; 0] 4) 0 9) = Returns r1
    /\ iw44_encode_slice_simple (at_cursor (scenario [] 0) 0 9) = Returns r2
    /\ status r1 = status r2
    /\ next_cursor r1 = next_cursor r2
    /\ (forall cap, Some 0 = Some cap -> cap < 4 ->
        size_out r2 = Some 0 /\ buffer_out r2 = Some []).
Proof.
  apply (progress_ignores_capacity (at_cursor (scenario [0; 0; 0; 0] 4) 0 9)
           (at_cursor (scenario [] 0) 0 9)); reflexivity.
Defined.

End SliceMore.

(** ** More on the session bridge *)

Module BridgeMore.
Import CInt CIntFacts Bridge Layout Session.

(** *** Loops *)

Lemma for_each_returns {A : Type} (body : Z -> outcome A) (f : Z -> A) (l : list Z) :
  (forall i, i ∈ l -> body i = Returns (f i)) ->
  for_each body l = Returns (f <$> l).
Proof.
  induction l as [|i l IH]; intros Hbody; [reflexivity|].
  cbn [for_each]. rewrite (Hbody i) by apply list_elem_of_here.
  cbn [obind]. rewrite IH by (intros j Hj; apply Hbody; now apply list_elem_of_further).
  reflexivity.
Qed.

Lemma for_each_no_throw {A : Type} (body : Z -> outcome A) (l : list Z) :
  (forall i, i ∈ l -> body i <> Throws) ->
  for_each body l <> Throws.
Proof.
  induction l as [|i l IH]; intros Hbody; [discriminate|].
  cbn [for_each].
  pose proof (Hbody i (list_elem_of_here _ _)) as Hi.
  destruct (body i) as [a| |]; [|contradiction|discriminate].
  cbn [obind].
  pose proof (IH (fun j Hj => Hbody j (list_elem_of_further _ _ _ Hj))) as Hl.
  destruct (for_each body l); [discriminate|contradiction|discriminate].
Qed.

Lemma for_each_undefined {A : Type} (body : Z -> outcome A) (l : list Z) (i : Z) :
  (forall j, j ∈ l -> body j <> Throws) ->
  i ∈ l ->
  body i = Undefined ->
  for_each body l = Undefined.
Proof.
  induction l as [|j l IH]; intros Hbody Hin Hi; [now apply elem_of_nil in Hin|].
  cbn [for_each].
  pose proof (Hbody j (list_elem_of_here _ _)) as Hj.
  destruct (decide (i = j)) as [->|Hne]; [now rewrite Hi|].
  destruct (body j) as [a| |]; [|contradiction|reflexivity].
  cbn [obind].
  rewrite IH; [reflexivity| |  |exact Hi].
  - intros k Hk. apply Hbody. now apply list_elem_of_further.
  - apply elem_of_cons in Hin as [?|?]; [contradiction|assumption].
Qed.

(** *** Row-major images *)

Lemma concat_rows {A : Type} (p : Z -> A) (w : Z) (H : nat) :
  0 <= w ->
  concat ((fun y => (fun x => p (y * w + x)) <$> seqZ 0 w) <$> seqZ 0 (Z.of_nat H))
  = p <$> seqZ 0 (Z.of_nat H * w).
Proof.
  intros Hw. induction H as [|H IH]; [reflexivity|].
  rewrite seqZ_S, fmap_app, concat_app, IH. cbn [fmap list_fmap concat].
  rewrite app_nil_r.
  replace (Z.of_nat (S H) * w) with (Z.of_nat H * w + w) by lia.
  rewrite seqZ_app by lia. rewrite fmap_app. f_equal.
  replace (0 + Z.of_nat H * w) with (Z.of_nat H * w + 0) by lia.
  rewrite <- (fmap_add_seqZ (Z.of_nat H * w) 0 w).
  rewrite <- list_fmap_compose. apply list_fmap_ext.
  intros _ x _. cbn. f_equal; lia.
Qed.

Lemma bytes_of_prefix (data : list Z) (N : nat) :
  (N <= length data)%nat ->
  (fun i => default 0 (data !! Z.to_nat i)) <$> seqZ 0 (Z.of_nat N) = take N data.
Proof.
  intros HN. apply list_eq. intros i.
  rewrite list_lookup_fmap.
  destruct (decide (i < N)%nat) as [Hi|Hi].
  - rewrite lookup_seqZ_lt by lia. rewrite lookup_take_lt by lia.
    cbn. replace (Z.to_nat (0 + Z.of_nat i)) with i by lia.
    destruct (lookup_lt_is_Some_2 data i ltac:(lia)) as [v Hv].
    now rewrite Hv.
  - rewrite lookup_seqZ_ge by lia. now rewrite lookup_take_ge by lia.
Qed.

(** The index arithmetic and the read of line 36, inside the image and
    inside [int]. *)
Lemma gray_pixel_returns (data : list Z) (w y x : Z) :
  0 <= y -> 0 <= x -> 0 <= w ->
  y * w + x <= INT_MAX ->
  (Z.to_nat (y * w + x) < length data)%nat ->
  (run yw <~ int_mul y w in
   run idx <~ int_add yw x in
   read (Some data) idx)
  = Returns (default 0 (data !! Z.to_nat (y * w + x))).
Proof.
  intros Hy Hx Hw Hmax Hlen.
  pose proof int_bounds as [Hmin HMAX].
  unfold int_mul, int_add.
  rewrite checked_in_range by (apply is_int_spec; nia). cbn [obind].
  rewrite checked_in_range by (apply is_int_spec; nia). cbn [obind].
  unfold read.
  destruct (y * w + x <? 0) eqn:E; [apply Z.ltb_lt in E; nia|].
  destruct (lookup_lt_is_Some_2 data _ Hlen) as [v Hv].
  now rewrite Hv.
Qed.

Lemma gray_pixel_no_throw (d : ptr (list Z)) (w y x : Z) :
  (run yw <~ int_mul y w in
   run idx <~ int_add yw x in
   read d idx) <> Throws.
Proof.
  unfold int_mul, int_add, checked, read.
  destruct (is_int (y * w)); cbn [obind]; [|discriminate].
  destruct (is_int (y * w + x)); cbn [obind]; [|discriminate].
  destruct d as [data|]; [|discriminate].
  destruct (y * w + x <? 0); [discriminate|].
  destruct (data !! Z.to_nat (y * w + x)); discriminate.
Qed.

(** A read at or after the end of the array, or an index beyond
    [INT_MAX]. *)
Lemma gray_pixel_undefined (data : list Z) (w y x : Z) :
  0 <= y -> 0 <= x -> 0 <= w ->
  (length data <= Z.to_nat (y * w + x))%nat \/ INT_MAX < y * w + x ->
  (run yw <~ int_mul y w in
   run idx <~ int_add yw x in
   read (Some data) idx)
  = Undefined.
Proof.
  intros Hy Hx Hw Hbad.
  unfold int_mul, int_add, checked, read.
  destruct (is_int (y * w)) eqn:E1; cbn [obind]; [|reflexivity].
  destruct (is_int (y * w + x)) eqn:E2; cbn [obind]; [|reflexivity].
  destruct (y * w + x <? 0); [reflexivity|].
  apply is_int_spec in E2.
  destruct Hbad as [Hlen|Hover]; [|lia].
  now rewrite (lookup_ge_None_2 data _ Hlen).
Qed.

Lemma copy_gray_no_throw (d : ptr (list Z)) (w h : Z) : copy_gray d w h <> Throws.
Proof.
  unfold copy_gray, for_upto.
  apply for_each_no_throw. intros y _.
  apply for_each_no_throw. intros x _.
  apply gray_pixel_no_throw.
Qed.

(** The rows that lines 33-38 store, pixel by pixel. *)
Lemma copy_gray_rows (data : list Z) (w h : Z) :
  0 < w -> 0 < h ->
  w * h <= INT_MAX + 1 ->
  w * h <= Z.of_nat (length data) ->
  copy_gray (Some data) w h
  = Returns ((fun y => (fun x => default 0 (data !! Z.to_nat (y * w + x)))
                         <$> seqZ 0 w) <$> seqZ 0 h).
Proof.
  intros Hw Hh Hmax Hlen. unfold copy_gray, for_upto.
  apply for_each_returns. intros y [Hy0 Hy1]%elem_of_seqZ.
  apply for_each_returns. intros x [Hx0 Hx1]%elem_of_seqZ.
  apply gray_pixel_returns; nia.
Qed.

(** Row-major layout: [height] rows of [width] pixels whose
    concatenation is the first [width * height] bytes of the array. *)
Lemma copy_gray_flat (data : list Z) (w h : Z) :
  0 < w -> 0 < h ->
  w * h <= INT_MAX + 1 ->
  w * h <= Z.of_nat (length data) ->
  exists rows,
    copy_gray (Some data) w h = Returns rows /\ row_major data w h rows.
Proof.
  intros Hw Hh Hmax Hlen.
  eexists. split; [now apply copy_gray_rows|].
  split; [now rewrite length_fmap, length_seqZ|]. split.
  - apply Forall_fmap, Forall_forall. intros y _. cbn.
    now rewrite length_fmap, length_seqZ.
  - rewrite <- (Z2Nat.id h) at 1 by lia.
    rewrite (concat_rows (fun i => default 0 (data !! Z.to_nat i)) w (Z.to_nat h))
      by lia.
    rewrite Z2Nat.id by lia.
    rewrite <- (Z2Nat.id (h * w)) by nia.
    rewrite bytes_of_prefix by nia.
    f_equal. f_equal. lia.
Qed.

Lemma copy_gray_short (data : list Z) (w h : Z) :
  0 < w -> 0 < h ->
  Z.of_nat (length data) < w * h \/ INT_MAX + 1 < w * h ->
  copy_gray (Some data) w h = Undefined.
Proof.
  intros Hw Hh Hbad. unfold copy_gray, for_upto.
  apply (for_each_undefined _ _ (h - 1)).
  - intros y _. apply for_each_no_throw. intros x _. apply gray_pixel_no_throw.
  - apply elem_of_seqZ. lia.
  - apply (for_each_undefined _ _ (w - 1)).
    + intros x _. apply gray_pixel_no_throw.
    + apply elem_of_seqZ. lia.
    + apply gray_pixel_undefined; lia.
Qed.

(** *** Interleaved RGB *)

Lemma take3_drop (l : list Z) (n : nat) :
  (n + 3 <= length l)%nat ->
  take 3 (drop n l)
  = [default 0 (l !! n); default 0 (l !! (n + 1)%nat); default 0 (l !! (n + 2)%nat)].
Proof.
  intros Hlen.
  rewrite <- (Nat.add_0_r n) at 2.
  rewrite <- !(lookup_drop l n).
  pose proof (length_drop l n) as Hd.
  destruct (drop n l) as [|a [|b [|c rest]]]; cbn in Hd; try lia.
  reflexivity.
Qed.

Lemma rgb_of_prefix (data : list Z) (N : nat) :
  (N * 3 <= length data)%nat ->
  concat (channels <$> (rgb_at data <$> seqZ 0 (Z.of_nat N))) = take (N * 3) data.
Proof.
  induction N as [|N IH]; intros Hlen; [reflexivity|].
  rewrite seqZ_S, !fmap_app, concat_app, IH by lia.
  cbn [fmap list_fmap concat]. rewrite app_nil_r.
  replace (S N * 3)%nat with (N * 3 + 3)%nat by lia.
  rewrite <- take_take_drop. f_equal.
  rewrite take3_drop by lia.
  unfold channels, rgb_at. cbn [fst snd].
  repeat f_equal; lia.
Qed.

Lemma rgb_pixel_returns (data : list Z) (w y x : Z) :
  0 <= y -> 0 <= x -> 0 <= w ->
  (y * w + x) * 3 + 2 <= INT_MAX ->
  (Z.to_nat ((y * w + x) * 3 + 2) < length data)%nat ->
  (run yw <~ int_mul y w in
   run ywx <~ int_add yw x in
   run idx <~ int_mul ywx 3 in
   run r <~ read (Some data) idx in
   run idx1 <~ int_add idx 1 in
   run g <~ read (Some data) idx1 in
   run idx2 <~ int_add idx 2 in
   run b <~ read (Some data) idx2 in
   Returns (r, g, b))
  = Returns (rgb_at data (y * w + x)).
Proof.
  intros Hy Hx Hw Hmax Hlen.
  pose proof int_bounds as [Hmin HMAX].
  assert (Hread : forall k, 0 <= k <= (y * w + x) * 3 + 2 ->
            read (Some data) k = Returns (default 0 (data !! Z.to_nat k))).
  { intros k Hk. unfold read.
    destruct (k <? 0) eqn:E; [apply Z.ltb_lt in E; lia|].
    destruct (lookup_lt_is_Some_2 data (Z.to_nat k) ltac:(lia)) as [v Hv].
    now rewrite Hv. }
  unfold int_mul, int_add.
  rewrite checked_in_range by (apply is_int_spec; nia). cbn [obind].
  rewrite checked_in_range by (apply is_int_spec; nia). cbn [obind].
  rewrite checked_in_range by (apply is_int_spec; nia). cbn [obind].
  rewrite Hread by nia. cbn [obind].
  rewrite checked_in_range by (apply is_int_spec; nia). cbn [obind].
  rewrite Hread by nia. cbn [obind].
  rewrite checked_in_range by (apply is_int_spec; nia). cbn [obind].
  rewrite Hread by nia. cbn [obind].
  reflexivity.
Qed.

Lemma read_no_throw (d : ptr (list Z)) (k : Z) : read d k <> Throws.
Proof.
  unfold read. destruct d as [data|]; [|discriminate].
  destruct (k <? 0); [discriminate|].
  destruct (data !! Z.to_nat k); discriminate.
Qed.

Lemma read_returns (data : list Z) (k v : Z) :
  read (Some data) k = Returns v -> (Z.to_nat k < length data)%nat.
Proof.
  unfold read. destruct (k <? 0); [discriminate|].
  destruct (data !! Z.to_nat k) eqn:E; [|discriminate].
  intros _. now apply lookup_lt_Some in E.
Qed.

Lemma checked_returns (z v : Z) : checked z = Returns v -> v = z /\ z <= INT_MAX.
Proof.
  unfold checked. destruct (is_int z) eqn:E; [|discriminate].
  apply is_int_spec in E. intros [= <-]. split; [reflexivity|lia].
Qed.

Lemma rgb_pixel_cases (d : ptr (list Z)) (w y x : Z) :
  let body :=
    (run yw <~ int_mul y w in
     run ywx <~ int_add yw x in
     run idx <~ int_mul ywx 3 in
     run r <~ read d idx in
     run idx1 <~ int_add idx 1 in
     run g <~ read d idx1 in
     run idx2 <~ int_add idx 2 in
     run b <~ read d idx2 in
     Returns (r, g, b)) in
  body = Undefined
  \/ exists px data,
       body = Returns px /\ d = Some data
       /\ (y * w + x) * 3 + 2 <= INT_MAX
       /\ (Z.to_nat ((y * w + x) * 3 + 2) < length data)%nat.
Proof.
  cbn zeta. unfold int_mul, int_add.
  destruct (checked (y * w)) as [yw| |] eqn:E1; cbn [obind];
    [|unfold checked in E1; destruct (is_int _); discriminate|now left].
  apply checked_returns in E1 as [-> _].
  destruct (checked (y * w + x)) as [ywx| |] eqn:E2; cbn [obind];
    [|unfold checked in E2; destruct (is_int _); discriminate|now left].
  apply checked_returns in E2 as [-> _].
  destruct (checked ((y * w + x) * 3)) as [idx| |] eqn:E3; cbn [obind];
    [|unfold checked in E3; destruct (is_int _); discriminate|now left].
  apply checked_returns in E3 as [-> _].
  destruct (read d ((y * w + x) * 3)) as [r| |] eqn:R1; cbn [obind];
    [|now apply read_no_throw in R1|now left].
  destruct (checked ((y * w + x) * 3 + 1)) as [idx1| |] eqn:E4; cbn [obind];
    [|unfold checked in E4; destruct (is_int _); discriminate|now left].
  apply checked_returns in E4 as [-> _].
  destruct (read d ((y * w + x) * 3 + 1)) as [g| |] eqn:R2; cbn [obind];
    [|now apply read_no_throw in R2|now left].
  destruct (checked ((y * w + x) * 3 + 2)) as [idx2| |] eqn:E5; cbn [obind];
    [|unfold checked in E5; destruct (is_int _); discriminate|now left].
  apply checked_returns in E5 as [-> Hmax].
  destruct (read d ((y * w + x) * 3 + 2)) as [b| |] eqn:R3; cbn [obind];
    [|now apply read_no_throw in R3|now left].
  right. destruct d as [data|]; [|discriminate].
  exists (r, g, b), data. repeat split; try assumption.
  now apply read_returns in R3.
Qed.

Lemma copy_rgb_no_throw (d : ptr (list Z)) (w h : Z) : copy_rgb d w h <> Throws.
Proof.
  unfold copy_rgb, for_upto.
  apply for_each_no_throw. intros y _.
  apply for_each_no_throw. intros x _.
  destruct (rgb_pixel_cases d w y x) as [Hu|(px & data & Hr & _)];
    cbn zeta in *; [rewrite Hu|rewrite Hr]; discriminate.
Qed.

Lemma copy_rgb_flat (data : list Z) (w h : Z) :
  0 < w -> 0 < h ->
  3 * w * h <= INT_MAX + 1 ->
  3 * w * h <= Z.of_nat (length data) ->
  exists rows,
    copy_rgb (Some data) w h = Returns rows /\ row_major_rgb data w h rows.
Proof.
  intros Hw Hh Hmax Hlen.
  exists ((fun y => (fun x => rgb_at data (y * w + x)) <$> seqZ 0 w) <$> seqZ 0 h).
  split.
  - unfold copy_rgb, for_upto.
    apply for_each_returns. intros y [Hy0 Hy1]%elem_of_seqZ.
    apply for_each_returns. intros x [Hx0 Hx1]%elem_of_seqZ.
    apply rgb_pixel_returns; nia.
  - split; [now rewrite length_fmap, length_seqZ|]. split.
    + apply Forall_fmap, Forall_forall. intros y _. cbn.
      now rewrite length_fmap, length_seqZ.
    + rewrite <- (Z2Nat.id h) at 1 by lia.
      rewrite (concat_rows (rgb_at data) w (Z.to_nat h)) by lia.
      rewrite Z2Nat.id by lia.
      rewrite <- (Z2Nat.id (h * w)) by nia.
      rewrite rgb_of_prefix by nia.
      f_equal. nia.
Qed.

Lemma copy_rgb_short (data : list Z) (w h : Z) :
  0 < w -> 0 < h ->
  Z.of_nat (length data) < 3 * w * h \/ INT_MAX + 1 < 3 * w * h ->
  copy_rgb (Some data) w h = Undefined.
Proof.
  intros Hw Hh Hbad. unfold copy_rgb, for_upto.
  assert (Hnt : forall y x,
            (run yw <~ int_mul y w in
             run ywx <~ int_add yw x in
             run idx <~ int_mul ywx 3 in
             run r <~ read (Some data) idx in
             run idx1 <~ int_add idx 1 in
             run g <~ read (Some data) idx1 in
             run idx2 <~ int_add idx 2 in
             run b <~ read (Some data) idx2 in
             Returns (r, g, b)) <> Throws).
  { intros y x.
    destruct (rgb_pixel_cases (Some data) w y x) as [Hu|(px & d' & Hr & _)];
      cbn zeta in *; [rewrite Hu|rewrite Hr]; discriminate. }
  apply (for_each_undefined _ _ (h - 1)).
  - intros y _. apply for_each_no_throw. intros x _. apply Hnt.
  - apply elem_of_seqZ. lia.
  - apply (for_each_undefined _ _ (w - 1)).
    + intros x _. apply Hnt.
    + apply elem_of_seqZ. lia.
    + destruct (rgb_pixel_cases (Some data) w (h - 1) (w - 1))
        as [Hu|(px & d' & _ & [= <-] & Hmax & Hlen)]; [exact Hu|].
      exfalso. destruct Hbad; nia.
Qed.

(** *** Creation on valid buffers *)

Lemma copy_mask_flat `{DjVuLibre Img} (mask_data : ptr (list Z)) (w h : Z) :
  0 < w -> 0 < h ->
  w * h <= INT_MAX + 1 ->
  (forall m, mask_data = Some m -> w * h <= Z.of_nat (length m)) ->
  (mask_data <> None -> GBitmap_create h w = Returns tt) ->
  exists mask,
    copy_mask mask_data w h = Returns mask /\ mask_of mask_data w h mask.
Proof.
  intros Hw Hh Hmax Hlen Hcreate. unfold copy_mask.
  destruct mask_data as [m|].
  - rewrite Hcreate by discriminate. cbn [obind].
    destruct (copy_gray_flat m w h Hw Hh Hmax (Hlen m eq_refl)) as (rows & Hr & Hrows).
    rewrite Hr. cbn [obind]. now exists (Some rows).
  - now exists None.
Qed.

(** X9. On a pixel buffer of at least [width * height] bytes (and a
    mask, when there is one, of as many), [iw44_encoder_new_grayscale]
    hands [IW44Image::create_encode] a bitmap of [height] rows of
    [width] pixels that is the buffer in row-major order, bytes after
    the image are not looked at, and the mask is laid out the same way;
    the handle is what [create_encode] returns, or null when it
    throws. *)
Theorem grayscale_pixels_row_major `{DjVuLibre Img}
    (data : list Z) (mask_data : ptr (list Z)) (w h : Z) :
  0 < w -> 0 < h ->
  w * h <= INT_MAX + 1 ->
  w * h <= Z.of_nat (length data) ->
  (forall m, mask_data = Some m -> w * h <= Z.of_nat (length m)) ->
  GBitmap_create h w = Returns tt ->
  exists rows mask,
    row_major data w h rows
    /\ mask_of mask_data w h mask
    /\ iw44_encoder_new_grayscale (Some data) w h mask_data
       = try_catch
           (run encoder <~ create_encode_bitmap rows mask in
            Returns (Some encoder))
           None.
Proof.
  intros Hw Hh Hmax Hlen Hmask Hcreate.
  destruct (copy_gray_flat data w h Hw Hh Hmax Hlen) as (rows & Hr & Hrows).
  destruct (copy_mask_flat mask_data w h Hw Hh Hmax Hmask (fun _ => Hcreate))
    as (mask & Hm & Hmrows).
  exists rows, mask. split; [exact Hrows|]. split; [exact Hmrows|].
  unfold iw44_encoder_new_grayscale.
  rewrite Hcreate. cbn [obind]. rewrite Hr. cbn [obind]. rewrite Hm.
  reflexivity.
Qed.

Lemma grayscale_pixels_row_major_witness :
  exists rows mask,
    row_major [1; 2; 3; 4; 5] 2 2 rows
    /\ mask_of (Some [1; 0; 0; 1]) 2 2 mask
    /\ @iw44_encoder_new_grayscale session (spec_session example_externals)
         (Some [1; 2; 3; 4; 5]) 2 2 (Some [1; 0; 0; 1])
       = try_catch
           (run encoder <~
              @create_encode_bitmap session (spec_session example_externals)
                rows mask in
            Returns (Some encoder))
           None.
Proof.
  apply (@grayscale_pixels_row_major session (spec_session example_externals)
           [1; 2; 3; 4; 5] (Some [1; 0; 0; 1]) 2 2).
  - lia.
  - lia.
  - pose proof int_bounds as [_ ->]. lia.
  - cbn. lia.
  - intros m [= <-]. cbn. lia.
  - reflexivity.
Defined.


(** X10. On a pixel buffer of at least [3 * width * height] bytes
    [iw44_encoder_new_color] hands [IW44Image::create_encode] a pixmap
    of [height] rows of [width] pixels whose channels, pixel after
    pixel and row after row, are the buffer in its own order (r, g, b
    interleaved); the mask is a row-major bitmap; the handle is what
    [create_encode] returns, or null when it throws. *)
Theorem color_pixels_row_major `{DjVuLibre Img}
    (data : list Z) (mask_data : ptr (list Z)) (w h : Z) :
  0 < w -> 0 < h ->
  3 * w * h <= INT_MAX + 1 ->
  3 * w * h <= Z.of_nat (length data) ->
  (forall m, mask_data = Some m -> w * h <= Z.of_nat (length m)) ->
  GPixmap_create h w = Returns tt ->
  (mask_data <> None -> GBitmap_create h w = Returns tt) ->
  exists rows mask,
    row_major_rgb data w h rows
    /\ mask_of mask_data w h mask
    /\ iw44_encoder_new_color (Some data) w h mask_data
       = try_catch
           (run encoder <~ create_encode_pixmap rows mask in
            Returns (Some encoder))
           None.
Proof.
  intros Hw Hh Hmax Hlen Hmask Hcreate Hmcreate.
  destruct (copy_rgb_flat data w h Hw Hh Hmax Hlen) as (rows & Hr & Hrows).
  destruct (copy_mask_flat mask_data w h Hw Hh ltac:(nia) Hmask Hmcreate)
    as (mask & Hm & Hmrows).
  exists rows, mask. split; [exact Hrows|]. split; [exact Hmrows|].
  unfold iw44_encoder_new_color.
  rewrite Hcreate. cbn [obind]. rewrite Hr. cbn [obind]. rewrite Hm.
  reflexivity.
Qed.

Lemma color_pixels_row_major_witness :
  exists rows mask,
    row_major_rgb [10; 20; 30; 11; 21; 31; 99] 2 1 rows
    /\ mask_of None 2 1 mask
    /\ @iw44_encoder_new_color session (spec_session example_externals)
         (Some [10; 20; 30; 11; 21; 31; 99]) 2 1 None
       = try_catch
           (run encoder <~
              @create_encode_pixmap session (spec_session example_externals)
                rows mask in
            Returns (Some encoder))
           None.
Proof.
  apply (@color_pixels_row_major session (spec_session example_externals)
           [10; 20; 30; 11; 21; 31; 99] None 2 1).
  - lia.
  - lia.
  - pose proof int_bounds as [_ ->]. lia.
  - cbn. lia.
  - intros m [=].
  - reflexivity.
  - intros Hnone. now contradiction Hnone.
Defined.


(** *** Creation on buffers that are too short *)

(** X11. The creation functions trust the caller for the size of the
    pixel buffer: when it holds fewer than [width * height] bytes
    (grayscale) or [3 * width * height] bytes (colour), or when that
    many bytes cannot be indexed by an [int], the copy loop reads past
    the buffer or overflows its index, which is undefined behaviour and
    not a null handle. *)
Theorem short_pixel_buffer_is_overrun `{DjVuLibre Img}
    (data : list Z) (mask_data : ptr (list Z)) (w h : Z) :
  0 < w -> 0 < h ->
  (GBitmap_create h w = Returns tt ->
   Z.of_nat (length data) < w * h \/ INT_MAX + 1 < w * h ->
   iw44_encoder_new_grayscale (Some data) w h mask_data = Undefined)
  /\ (GPixmap_create h w = Returns tt ->
      Z.of_nat (length data) < 3 * w * h \/ INT_MAX + 1 < 3 * w * h ->
      iw44_encoder_new_color (Some data) w h mask_data = Undefined).
Proof.
  intros Hw Hh. split; intros Hcreate Hbad.
  - unfold iw44_encoder_new_grayscale. rewrite Hcreate. cbn [obind].
    now rewrite copy_gray_short.
  - unfold iw44_encoder_new_color. rewrite Hcreate. cbn [obind].
    now rewrite copy_rgb_short.
Qed.

Lemma short_pixel_buffer_is_overrun_witness :
  @iw44_encoder_new_grayscale session (spec_session example_externals)
    (Some [1; 2; 3]) 2 2 None = Undefined
  /\ @iw44_encoder_new_color session (spec_session example_externals)
       (Some [1; 2; 3; 4; 5]) 2 1 None = Undefined.
Proof.
  split.
  - apply (proj1 (@short_pixel_buffer_is_overrun session
                    (spec_session example_externals) [1; 2; 3] None 2 2
                    ltac:(lia) ltac:(lia)));
      [reflexivity | left; cbn; lia].
  - apply (proj2 (@short_pixel_buffer_is_overrun session
                    (spec_session example_externals) [1; 2; 3; 4; 5] None 2 1
                    ltac:(lia) ltac:(lia)));
      [reflexivity | left; cbn; lia].
Defined.


(** X12. The same holds for the mask: with a valid pixel buffer and a
    mask of fewer than [width * height] bytes, both creation functions
    read past the mask. *)
Theorem short_mask_is_overrun `{DjVuLibre Img}
    (data mask : list Z) (w h : Z) :
  0 < w -> 0 < h ->
  Z.of_nat (length mask) < w * h ->
  GBitmap_create h w = Returns tt ->
  (w * h <= INT_MAX + 1 ->
   w * h <= Z.of_nat (length data) ->
   iw44_encoder_new_grayscale (Some data) w h (Some mask) = Undefined)
  /\ (3 * w * h <= INT_MAX + 1 ->
      3 * w * h <= Z.of_nat (length data) ->
      GPixmap_create h w = Returns tt ->
      iw44_encoder_new_color (Some data) w h (Some mask) = Undefined).
Proof.
  intros Hw Hh Hshort Hcreate.
  assert (Hmask : copy_mask (Some mask) w h = Undefined).
  { unfold copy_mask. rewrite Hcreate. cbn [obind].
    rewrite copy_gray_short by (try assumption; now left). reflexivity. }
  split.
  - intros Hmax Hlen.
    destruct (copy_gray_flat data w h Hw Hh Hmax Hlen) as (rows & Hr & _).
    unfold iw44_encoder_new_grayscale.
    rewrite Hcreate. cbn [obind]. rewrite Hr. cbn [obind]. now rewrite Hmask.
  - intros Hmax Hlen Hpix.
    destruct (copy_rgb_flat data w h Hw Hh Hmax Hlen) as (rows & Hr & _).
    unfold iw44_encoder_new_color.
    rewrite Hpix. cbn [obind]. rewrite Hr. cbn [obind]. now rewrite Hmask.
Qed.

Lemma short_mask_is_overrun_witness :
  @iw44_encoder_new_grayscale session (spec_session example_externals)
    (Some [1; 2; 3; 4]) 2 2 (Some [1; 0; 0]) = Undefined.
Proof.
  apply (proj1 (@short_mask_is_overrun session (spec_session example_externals)
                  [1; 2; 3; 4] [1; 0; 0] 2 2
                  ltac:(lia) ltac:(lia) ltac:(cbn; lia) eq_refl)).
  - pose proof int_bounds as [_ ->]. lia.
  - cbn. lia.
Defined.


(** *** Handles and exceptions *)

(** X13. A creation function returns a null handle only after an
    exception of a collaborator, and a handle that is not null is the
    object [IW44Image::create_encode] returned. *)
Theorem handle_comes_from_create_encode `{DjVuLibre Img}
    (image_data mask_data : ptr (list Z)) (w h : Z) :
  (forall e,
     iw44_encoder_new_grayscale image_data w h mask_data = Returns (Some e) ->
     exists rows mask, create_encode_bitmap rows mask = Returns e)
  /\ (iw44_encoder_new_grayscale image_data w h mask_data = Returns None ->
      GBitmap_create h w = Throws
      \/ exists rows mask, create_encode_bitmap rows mask = Throws)
  /\ (forall e,
       iw44_encoder_new_color image_data w h mask_data = Returns (Some e) ->
       exists rows mask, create_encode_pixmap rows mask = Returns e)
  /\ (iw44_encoder_new_color image_data w h mask_data = Returns None ->
      GPixmap_create h w = Throws \/ GBitmap_create h w = Throws
      \/ exists rows mask, create_encode_pixmap rows mask = Throws).
Proof.
  assert (Hmask : forall md,
            GBitmap_create h w <> Throws -> copy_mask md w h <> Throws).
  { intros md Hnt. unfold copy_mask. destruct md as [m|]; [|discriminate].
    destruct (GBitmap_create h w) as [[]| |]; cbn [obind];
      [|contradiction|discriminate].
    pose proof (copy_gray_no_throw (Some m) w h) as Hc.
    destruct (copy_gray (Some m) w h); [discriminate|contradiction|discriminate]. }
  unfold iw44_encoder_new_grayscale, iw44_encoder_new_color.
  repeat split.
  - intros e.
    destruct (GBitmap_create h w) as [[]| |]; cbn [obind try_catch];
      try discriminate.
    destruct (copy_gray image_data w h) as [rows| |]; cbn [obind try_catch];
      try discriminate.
    destruct (copy_mask mask_data w h) as [mask| |]; cbn [obind try_catch];
      try discriminate.
    destruct (create_encode_bitmap rows mask) as [e'| |] eqn:E;
      cbn [obind try_catch]; try discriminate.
    intros [= <-]. eauto.
  - destruct (GBitmap_create h w) as [[]| |] eqn:Ec; cbn [obind try_catch];
      [|now left|discriminate].
    pose proof (copy_gray_no_throw image_data w h) as Hc.
    destruct (copy_gray image_data w h) as [rows| |]; cbn [obind try_catch];
      [|contradiction|discriminate].
    pose proof (Hmask mask_data ltac:(discriminate)) as Hm.
    destruct (copy_mask mask_data w h) as [mask| |]; cbn [obind try_catch];
      [|contradiction|discriminate].
    destruct (create_encode_bitmap rows mask) as [e'| |] eqn:E;
      cbn [obind try_catch]; try discriminate.
    intros _. right. eauto.
  - intros e.
    destruct (GPixmap_create h w) as [[]| |]; cbn [obind try_catch];
      try discriminate.
    destruct (copy_rgb image_data w h) as [rows| |]; cbn [obind try_catch];
      try discriminate.
    destruct (copy_mask mask_data w h) as [mask| |]; cbn [obind try_catch];
      try discriminate.
    destruct (create_encode_pixmap rows mask) as [e'| |] eqn:E;
      cbn [obind try_catch]; try discriminate.
    intros [= <-]. eauto.
  - destruct (GPixmap_create h w) as [[]| |] eqn:Ec; cbn [obind try_catch];
      [|now left|discriminate].
    pose proof (copy_rgb_no_throw image_data w h) as Hc.
    destruct (copy_rgb image_data w h) as [rows| |]; cbn [obind try_catch];
      [|contradiction|discriminate].
    destruct (GBitmap_create h w) as [[]| |] eqn:Eb;
      [|right; now left|].
    + pose proof (Hmask mask_data ltac:(discriminate)) as Hm.
      destruct (copy_mask mask_data w h) as [mask| |]; cbn [obind try_catch];
        [|contradiction|discriminate].
      destruct (create_encode_pixmap rows mask) as [e'| |] eqn:E;
        cbn [obind try_catch]; try discriminate.
      intros _. right. right. eauto.
    + unfold copy_mask. rewrite Eb. destruct mask_data; cbn [obind try_catch].
      * discriminate.
      * destruct (create_encode_pixmap rows None) as [e'| |] eqn:E;
          cbn [obind try_catch]; try discriminate.
        intros _. right. right. eauto.
Qed.

(** X14. No C++ exception leaves the bridge: whatever the collaborators
    do, [iw44_encoder_new_grayscale], [iw44_encoder_new_color],
    [iw44_encode_chunk], [iw44_get_slices] and [iw44_get_bytes] never
    end in an exception; each catch-all handler turns it into the null
    handle or into -1. *)
Theorem no_exception_leaves_the_bridge `{DjVuLibre Img}
    (image_data mask_data : ptr (list Z)) (w h : Z)
    (malloc : Z -> bool) (c : chunk_call Img) (handle : ptr Img) :
  iw44_encoder_new_grayscale image_data w h mask_data <> Throws
  /\ iw44_encoder_new_color image_data w h mask_data <> Throws
  /\ iw44_encode_chunk malloc c <> Throws
  /\ iw44_get_slices handle <> Throws
  /\ iw44_get_bytes handle <> Throws
  /\ (forall iw44 p d z,
        fst (encode_chunk iw44 {| cpp_slices := slices p; cpp_bytes := bytes p;
                                  cpp_decibels := decibels p |}) = Throws ->
        exists r,
          iw44_encode_chunk malloc
            {| encoder := Some iw44; parms := Some p;
               output_data := Some d; output_size := Some z |} = Returns r
          /\ chunk_status r = -1
          /\ data_out r = Some d /\ size_out r = Some z)
  /\ (forall iw44, get_slices iw44 = Throws -> iw44_get_slices (Some iw44) = Returns (-1))
  /\ (forall iw44, get_bytes iw44 = Throws -> iw44_get_bytes (Some iw44) = Returns (-1)).
Proof.
  assert (Htry : forall (A : Type) (o : outcome A) (a : A), try_catch o a <> Throws)
    by (intros A [x| |] handler; discriminate).
  repeat split; try apply Htry.
  - unfold iw44_encode_chunk.
    destruct (encoder c), (parms c), (output_data c), (output_size c);
      try discriminate.
    destruct (encode_chunk _ _) as [[[result stream]| |] iw44'];
      try discriminate.
    destruct (result <=? 0); [discriminate|].
    destruct (malloc _); discriminate.
  - destruct handle; [apply Htry|discriminate].
  - destruct handle; [apply Htry|discriminate].
  - intros iw44 p d z Hthrow. unfold iw44_encode_chunk.
    cbn [encoder parms output_data output_size].
    destruct (encode_chunk _ _) as [flag iw44']. cbn [fst] in Hthrow.
    rewrite Hthrow. eexists. split; [reflexivity|]. repeat split.
  - intros iw44 Hthrow. cbn. now rewrite Hthrow.
  - intros iw44 Hthrow. cbn. now rewrite Hthrow.
Qed.

(** *** The chunk that is handed over *)

(** X15. [iw44_encode_chunk] stores through its out-parameters exactly
    when it returns a positive status.  Then the status is the one the
    session's [encode_chunk] returned for the caller's three target
    fields, the buffer holds the bytes the session wrote to the stream
    and [*output_size] is their number.  With a status of 0 or below
    nothing is stored, so bytes the session wrote in a call that
    returned 0 or less are dropped. *)
Theorem chunk_handed_over_iff_positive `{DjVuLibre Img}
    (malloc : Z -> bool) (c : chunk_call Img) (r : chunk_post Img) :
  iw44_encode_chunk malloc c = Returns r ->
  (0 < chunk_status r ->
   exists iw44 p stream iw44',
     encoder c = Some iw44 /\ parms c = Some p
     /\ encode_chunk iw44 {| cpp_slices := slices p; cpp_bytes := bytes p;
                             cpp_decibels := decibels p |}
        = (Returns (chunk_status r, stream), iw44')
     /\ encoder_out r = Some iw44'
     /\ data_out r = Some (Some stream)
     /\ size_out r = Some (Z.of_nat (length stream)))
  /\ (chunk_status r <= 0 ->
      data_out r = output_data c /\ size_out r = output_size c).
Proof.
  unfold iw44_encode_chunk.
  destruct (encoder c) as [iw44|] eqn:He, (parms c) as [p|] eqn:Hp,
           (output_data c) as [d|] eqn:Hd, (output_size c) as [z|] eqn:Hz;
    try (intros [= <-]; cbn; split; [lia|now rewrite ?Hd, ?Hz]).
  destruct (encode_chunk _ _) as [[[result stream]| |] iw44'] eqn:Hcore;
    [| |discriminate].
  - destruct (result <=? 0) eqn:E;
      [apply Z.leb_le in E | apply Z.leb_gt in E].
    + intros [= <-]. cbn. split; [lia|now rewrite Hd, Hz].
    + destruct (malloc _).
      * intros [= <-]. cbn. split; [|lia].
        intros _. exists iw44, p, stream, iw44'. now rewrite Hcore.
      * intros [= <-]. cbn. split; [lia|now rewrite Hd, Hz].
  - intros [= <-]. cbn. split; [lia|now rewrite Hd, Hz].
Qed.

Lemma chunk_handed_over_iff_positive_witness :
  exists r,
    @iw44_encode_chunk session (spec_session example_externals) (fun _ => true)
      {| encoder := Some example_session; parms := Some one_slice;
         output_data := Some None; output_size := Some 0 |} = Returns r
    /\ chunk_status r = 1
    /\ (0 < chunk_status r ->
        data_out r = Some (Some [0; 0; 170; 187]) /\ size_out r = Some 4)
    /\ (chunk_status r <= 0 ->
        data_out r = Some None /\ size_out r = Some 0).
Proof.
  eexists. split; [reflexivity|]. split; [reflexivity|].
  split; [intros _; split; reflexivity|].
  apply (@chunk_handed_over_iff_positive session (spec_session example_externals)
           (fun _ => true)
           {| encoder := Some example_session; parms := Some one_slice;
              output_data := Some None; output_size := Some 0 |}).
  reflexivity.
Defined.

(** X16. If any of the four pointer arguments of [iw44_encode_chunk]
    is null, the handle, the target or an out-parameter, the guard of
    line 109 returns -1 before the session is used: the session object
    and both out-parameters are left as they were. *)
Theorem null_argument_is_rejected `{DjVuLibre Img}
    (malloc : Z -> bool) (c : chunk_call Img) :
  is_null (encoder c) || is_null (parms c)
  || is_null (output_data c) || is_null (output_size c) = true ->
  iw44_encode_chunk malloc c
  = Returns {| chunk_status := -1; encoder_out := encoder c;
               data_out := output_data c; size_out := output_size c |}.
Proof.
  unfold iw44_encode_chunk, leave.
  destruct (encoder c), (parms c), (output_data c), (output_size c);
    cbn; intros Hnull; try reflexivity; discriminate.
Qed.

Lemma null_argument_is_rejected_witness :
  @iw44_encode_chunk session (spec_session example_externals) (fun _ => true)
    {| encoder := Some example_session; parms := None;
       output_data := Some None; output_size := Some 0 |}
  = Returns {| chunk_status := -1; encoder_out := Some example_session;
               data_out := Some None; size_out := Some 0 |}.
Proof.
  apply (@null_argument_is_rejected session (spec_session example_externals)
           (fun _ => true)
           {| encoder := Some example_session; parms := None;
              output_data := Some None; output_size := Some 0 |}).
  reflexivity.
Defined.

End BridgeMore.
